(** * pdf-to-podcast: a shallow embedding of [pdf_to_podcast.py]

    The pipeline turns PDF documents into a narrated audio file by chaining
    three hosted models and a local concatenation step.  This development
    embeds the in-repository logic (prompt building and truncation, recovery of
    a JSON payload from a free-text reply, the speaker-to-voice mapping and
    the ordered assembly of audio segments) and proves the properties the
    specification states about it.

    Python strings are sequences of Unicode code points; they are embedded as
    lists of code points ([N]).  Exceptions are embedded as an error result,
    and the effects (remote calls, files, standard output) as a state monad
    over an explicit world. *)

From Stdlib Require Import String Ascii DecimalString DecimalZ DecimalPos.
From stdpp Require Import gmap list numbers.

Open Scope N_scope.
Open Scope nat_scope.

(** ** Strings *)

Abbreviation str := (list N).

(** [lit s] is the Python literal with the characters of [s]. *)
Definition lit (s : string) : str := N_of_ascii <$> list_ascii_of_string s.
Arguments lit : simpl never.

(** The newline and double-quote characters. *)
Definition nl : str := [10%N].
Definition dq : str := [34%N].

(** [str(n)] for an integer. *)
Definition str_of_Z (z : Z) : str := lit (NilZero.string_of_int (Z.to_int z)).

(** [str.isspace] on one code point: the characters [str.strip()] removes. *)
Definition isspace (c : N) : bool :=
  ((9 <=? c) && (c <=? 13) || (28 <=? c) && (c <=? 32)
   || (c =? 133) || (c =? 160) || (c =? 5760)
   || (8192 <=? c) && (c <=? 8202) || (c =? 8232) || (c =? 8233)
   || (c =? 8239) || (c =? 8287) || (c =? 12288))%N.

Fixpoint lstrip (s : str) : str :=
  match s with
  | c :: s' => if isspace c then lstrip s' else s
  | [] => []
  end.

Definition rstrip (s : str) : str := reverse (lstrip (reverse s)).

(** [s.strip()] *)
Definition strip (s : str) : str := rstrip (lstrip s).

(** [s.startswith(p)] *)
Fixpoint startswith (p s : str) : bool :=
  match p, s with
  | [], _ => true
  | _ :: _, [] => false
  | a :: p', b :: s' => (a =? b)%N && startswith p' s'
  end.

(** [s.find(sep)], with [None] for Python's -1. *)
Fixpoint find (sep s : str) : option nat :=
  if startswith sep s then Some 0
  else match s with
       | [] => None
       | _ :: s' => S <$> find sep s'
       end.

(** [sep in s] *)
Definition contains (sep s : str) : bool := bool_decide (is_Some (find sep s)).

(** ** Exceptions *)

Inductive exn : Type :=
  | IndexError
  | KeyError
  | TypeError
  | ValueError
  | JSONDecodeError
  | UnicodeDecodeError
  | FileNotFoundError
  | RequestException
  | ModelError
  | CalledProcessError.

Inductive res (A : Type) : Type :=
  | Ok (a : A)
  | Raise (e : exn).
Arguments Ok {A} a.
Arguments Raise {A} e.

Definition res_bind {A B} (r : res A) (k : A → res B) : res B :=
  match r with
  | Ok a => k a
  | Raise e => Raise e
  end.

Notation "x ⇐ r ;; k" := (res_bind r (λ x, k))
  (at level 100, r at next level, k at level 200, right associativity).

(** [l[i]] for a non-negative index. *)
Definition index {A} (l : list A) (i : nat) : res A :=
  match l !! i with
  | Some x => Ok x
  | None => Raise IndexError
  end.

(** ** [str.split(sep)]

    The pieces between the successive non-overlapping occurrences of [sep],
    searched from the left.  Each occurrence consumes at least one character,
    so [length s] rounds are enough. *)
Fixpoint split_fuel (fuel : nat) (sep s : str) : list str :=
  match fuel with
  | 0 => [s]
  | S fuel' =>
      match find sep s with
      | None => [s]
      | Some i => take i s :: split_fuel fuel' sep (drop (i + length sep) s)
      end
  end.

Definition split (sep s : str) : res (list str) :=
  match sep with
  | [] => Raise ValueError
  | _ => Ok (split_fuel (length s) sep s)
  end.

(** ** Response parser: [extract_json] *)

Definition fence : str := lit "```".
Definition fence_json : str := lit "```json".

Definition extract_json (content : str) : res str :=
  if contains fence_json content then
    parts ⇐ split fence_json content ;;
    after ⇐ index parts 1 ;;
    inner ⇐ split fence after ;;
    body ⇐ index inner 0 ;;
    Ok (strip body)
  else if contains fence content then
    parts ⇐ split fence content ;;
    after ⇐ index parts 1 ;;
    inner ⇐ split fence after ;;
    body ⇐ index inner 0 ;;
    Ok (strip body)
  else Ok content.

Example extract_json_fenced :
  extract_json (lit "Here you go: ```json" ++ nl ++ lit "{}" ++ nl ++ lit "``` bye")
  = Ok (lit "{}").
Proof. vm_compute. reflexivity. Qed.

Example extract_json_bare : extract_json (lit "{}") = Ok (lit "{}").
Proof. vm_compute. reflexivity. Qed.

(** ** Data model *)

Record PDFMetadata : Type := {
  filename : str;
  markdown : str;
  type : str  (* "main" or "context" *)
}.

(** The objects [json.loads] returns.  A float is kept by the value
    [m * 2 ^ e] it denotes, or as one of the three special values. *)
Inductive float_val : Type :=
  | FNan
  | FInf (negative : bool)
  | FFin (m e : Z).

Inductive json : Type :=
  | JNull
  | JBool (b : bool)
  | JInt (z : Z)
  | JFloat (f : float_val)
  | JStr (s : str)
  | JArr (items : list json)
  | JObj (fields : list (str * json)).

(** The dataclasses carry no run-time check: a field holds whatever object the
    decoded reply had at that place. *)
Record DialogueEntry : Type := {
  text : json;
  speaker : json
}.

Record Conversation : Type := {
  title : json;
  summary : json;
  lines : list DialogueEntry
}.

(** A path as the caller passes it: its string form and its final component. *)
Record Path : Type := {
  path_str : str;
  path_name : str
}.

(** ** Python objects as set elements and dictionary keys

    Two hashable objects are the same key when they compare equal: [True], [1]
    and [1.0] are one key.  Numbers are normalised to an odd mantissa. *)
Inductive key : Type :=
  | KNone
  | KNum (m e : Z)
  | KNan
  | KInf (negative : bool)
  | KStr (s : str).

Fixpoint odd_part (p : positive) : positive * Z :=
  match p with
  | xO p' => let '(q, k) := odd_part p' in (q, (k + 1)%Z)
  | _ => (p, 0%Z)
  end.

Definition num_key (m e : Z) : key :=
  match m with
  | Z0 => KNum 0 0
  | Zpos p => let '(q, k) := odd_part p in KNum (Zpos q) (e + k)
  | Zneg p => let '(q, k) := odd_part p in KNum (Zneg q) (e + k)
  end.

(** [hash(obj)], as far as it decides which key [obj] is; lists and dicts are
    unhashable. *)
Definition key_of (v : json) : res key :=
  match v with
  | JNull => Ok KNone
  | JBool b => Ok (num_key (if b then 1 else 0) 0)
  | JInt z => Ok (num_key z 0)
  | JFloat FNan => Ok KNan
  | JFloat (FInf s) => Ok (KInf s)
  | JFloat (FFin m e) => Ok (num_key m e)
  | JStr s => Ok (KStr s)
  | JArr _ | JObj _ => Raise TypeError
  end.

Definition key_code (k : key) : unit + Z * Z + unit + bool + str :=
  match k with
  | KNone => inl (inl (inl (inl tt)))
  | KNum m e => inl (inl (inl (inr (m, e))))
  | KNan => inl (inl (inr tt))
  | KInf s => inl (inr s)
  | KStr s => inr s
  end.

Definition key_decode (c : unit + Z * Z + unit + bool + str) : key :=
  match c with
  | inl (inl (inl (inl _))) => KNone
  | inl (inl (inl (inr (m, e)))) => KNum m e
  | inl (inl (inr _)) => KNan
  | inl (inr s) => KInf s
  | inr s => KStr s
  end.

Lemma key_decode_code (k : key) : key_decode (key_code k) = k.
Proof. by destruct k. Qed.

#[global] Instance key_eq_dec : EqDecision key.
Proof. solve_decision. Defined.

#[global] Instance key_countable : Countable key :=
  inj_countable' key_code key_decode key_decode_code.

(** ** Subscripting and iterating decoded objects *)

Fixpoint assoc (k : str) (fields : list (str * json)) : option json :=
  match fields with
  | [] => None
  | (k', v) :: rest => if decide (k = k') then Some v else assoc k rest
  end.

(** [obj[k]] for a string [k]. *)
Definition subscript (obj : json) (k : str) : res json :=
  match obj with
  | JObj fields =>
      match assoc k fields with
      | Some v => Ok v
      | None => Raise KeyError
      end
  | _ => Raise TypeError
  end.

(** [iter(obj)]: the elements of a list, the keys of a dict, the characters
    of a string. *)
Definition iterate (obj : json) : res (list json) :=
  match obj with
  | JArr items => Ok items
  | JObj fields => Ok (JStr <$> fields.*1)
  | JStr s => Ok ((λ c, JStr [c]) <$> s)
  | _ => Raise TypeError
  end.

(** A comprehension whose body may raise. *)
Fixpoint res_map {A B} (f : A → res B) (l : list A) : res (list B) :=
  match l with
  | [] => Ok []
  | x :: l' => y ⇐ f x ;; ys ⇐ res_map f l' ;; Ok (y :: ys)
  end.

(** ** Content planner: the prompts *)

Definition quoted (s : str) : str := dq ++ s ++ dq.

(** [bool(s)] for a string. *)
Definition truthy (s : str) : bool :=
  match s with
  | [] => false
  | _ => true
  end.

Definition pdf_section (pdf : PDFMetadata) : str :=
  concat [ nl; nl; lit "Document: "; filename pdf; nl;
           take (Z.to_nat 5000) (markdown pdf); nl; nl ].

(** The text accumulated over the documents, before truncation. *)
Definition joined_pdf_text (pdf_metadata : list PDFMetadata) : str :=
  foldl (λ all_pdf_text pdf, all_pdf_text ++ pdf_section pdf) [] pdf_metadata.

Definition max_context_length : nat := Z.to_nat 24000.

Definition truncation_marker : str :=
  concat [ nl; nl; lit "[truncated due to length]"; nl ].

(** [all_pdf_text] as the summarization prompt receives it. *)
Definition all_pdf_text (pdf_metadata : list PDFMetadata) : str :=
  let all_pdf_text := joined_pdf_text pdf_metadata in
  if max_context_length <? length all_pdf_text
  then take max_context_length all_pdf_text ++ truncation_marker
  else all_pdf_text.

Definition summary_prompt (all_pdf_text : str) : str :=
  concat [
    lit "Summarize the main points from these documents. Focus on key facts, figures, and insights:";
    nl; nl; lit "    "; all_pdf_text; nl; nl;
    lit "    Provide a concise summary in 3-5 paragraphs that captures the essential information." ].

Definition outline_prompt (summary host_name guest_name : str) (duration_minutes : Z)
    (podcast_topic : str) (monologue : bool) : str :=
  concat [
    lit "Based on the following summary of documents:"; nl; nl; lit "    ";
    summary; nl; nl; lit "    Create an outline for a ";
    (if monologue then lit "monologue" else lit "podcast conversation between a host and guest");
    lit " that discusses these documents."; nl; lit "    The ";
    (if monologue then lit "speaker" else lit "host"); lit " is named ";
    host_name;
    (if monologue then lit "." else lit " and the guest is named " ++ guest_name ++ lit ".");
    lit "."; nl; lit "    ";
    (if monologue then lit "The monologue" else lit "The conversation");
    lit " should last approximately "; (str_of_Z duration_minutes);
    lit " minutes."; nl; lit "    ";
    (if truthy podcast_topic then lit "The podcast should focus on: " ++ podcast_topic else []);
    nl; nl;
    lit "    Create a detailed outline with 5-10 main points or segments, where each segment includes a topic and key points to discuss." ].

Definition monologue_prompt (outline summary host_name : str) (duration_minutes : Z) : str :=
  concat [
    lit "You will create a monologue podcast script for "; host_name;
    lit " based on this outline:"; nl; nl; lit "        "; outline; nl; nl;
    lit "        The monologue should:"; nl;
    lit "        1. Be approximately "; (str_of_Z duration_minutes);
    lit " minutes in length (about "; (str_of_Z (duration_minutes * 150));
    lit " words)"; nl; lit "        2. Feel conversational and engaging"; nl;
    lit "         3. Reference information from the documents summarized as: ";
    summary; nl;
    lit "        4. Have a clear introduction, body, and conclusion"; nl;
    lit "        5. Use a natural speaking style"; nl; nl;
    lit "        Format the monologue as follows:"; nl; nl; lit "        {";
    quoted (lit "title"); lit ": "; quoted (lit "[PODCAST TITLE]"); lit ", ";
    quoted (lit "summary"); lit ": "; quoted (lit "[BRIEF SUMMARY]");
    lit ", "; quoted (lit "lines"); lit ": ["; nl; lit "          {";
    quoted (lit "text"); lit ": "; quoted (lit "[First line of speech]");
    lit ", "; quoted (lit "speaker"); lit ": "; quoted host_name; lit "},";
    nl; lit "          {"; quoted (lit "text"); lit ": ";
    quoted (lit "[Next line of speech]"); lit ", "; quoted (lit "speaker");
    lit ": "; quoted host_name; lit "},"; nl; lit "          ..."; nl;
    lit "        ]}"; nl; nl;
    lit "        Return ONLY the formatted JSON with no additional text or explanation." ].

Definition dialogue_prompt (outline summary host_name guest_name : str)
    (duration_minutes : Z) : str :=
  concat [
    lit "You will create a podcast dialogue script between "; host_name;
    lit " and "; guest_name; lit " based on this outline:"; nl; nl;
    lit "        "; outline; nl; nl; lit "        The conversation should:";
    nl; lit "        1. Be approximately "; (str_of_Z duration_minutes);
    lit " minutes in length (about "; (str_of_Z (duration_minutes * 150));
    lit " words)"; nl; lit "        2. Feel natural and conversational"; nl;
    lit "        3. Reference information from the documents summarized as: ";
    summary; nl;
    lit "        4. Have the host ask questions and guide the conversation";
    nl; lit "        5. Have the guest provide expertise and insights"; nl;
    lit "        6. Include back-and-forth exchanges that sound realistic";
    nl; nl; lit "        Format the dialogue as follows:"; nl; nl;
    lit "        {"; quoted (lit "title"); lit ": ";
    quoted (lit "[PODCAST TITLE]"); lit ", "; quoted (lit "summary");
    lit ": "; quoted (lit "[BRIEF SUMMARY]"); lit ", "; quoted (lit "lines");
    lit ": ["; nl; lit "          {"; quoted (lit "text"); lit ": ";
    quoted (lit "[First line of speech]"); lit ", "; quoted (lit "speaker");
    lit ": "; dq; lit "["; host_name; lit " or "; guest_name; lit "]"; dq;
    lit "},"; nl; lit "          {"; quoted (lit "text"); lit ": ";
    quoted (lit "[Next line of speech]"); lit ", "; quoted (lit "speaker");
    lit ": "; dq; lit "["; host_name; lit " or "; guest_name; lit "]"; dq;
    lit "},"; nl; lit "          ..."; nl; lit "        ]}"; nl; nl;
    lit "        Return ONLY the formatted JSON with no additional text or explanation." ].

(** ** The world the pipeline runs in

    The remote models, the HTTP client, the audio utility and the standard
    output are observed through a trace of events; files are a map from path
    to contents. *)

Record tts_request : Type := {
  req_text : json;
  voice_id : str;
  sample_rate : Z;
  english_normalization : bool;
  language_boost : str
}.

Inductive event : Type :=
  | Print (line : str)
  | Extract (doc : Path)
  | Get (url : str)
  | Write (path content : str)
  | Llm (prompt : str)
  | TtsStart (request : tts_request)
  | TtsWait (task : nat)
  | Run (cmd : list str).

Record World : Type := {
  files : gmap str str;
  trace : list event
}.

(** The external collaborators.  Each answer may depend on everything that
    happened before the call, and each call may fail.  [set_order] is the
    order in which a set built by the given insertions is iterated. *)
Record Env : Type := {
  pdf_extractor : list event → Path → res str;
  requests_get : list event → str → res str;
  decode_text : str → res str;
  llm : list event → str → res str;
  tts_start : list event → tts_request → res nat;
  tts_wait : list event → nat → res str;
  subprocess_run : list event → gmap str str → list str → res (gmap str str);
  json_loads : str → res json;
  set_order : list key → list key;
  cwd : str
}.

Definition M (A : Type) : Type := World → res A * World.

Definition ret {A} (a : A) : M A := λ w, (Ok a, w).

Definition bind {A B} (m : M A) (k : A → M B) : M B :=
  λ w, match m w with
       | (Ok a, w') => k a w'
       | (Raise e, w') => (Raise e, w')
       end.

Notation "'let*' x ':=' m 'in' k" := (bind m (λ x, k))
  (at level 10, x name, m at level 100, k at level 200).
Notation "'do*' m 'in' k" := (bind m (λ _, k))
  (at level 10, m at level 100, k at level 200).

(** A pure computation that may raise. *)
Definition lift {A} (r : res A) : M A := λ w, (r, w).

Definition emit (ev : event) : M unit :=
  λ w, (Ok tt, {| files := files w; trace := trace w ++ [ev] |}).

(** A call to a collaborator: it answers from the history, and the call joins
    the history. *)
Definition call {A} (oracle : list event → res A) (ev : event) : M A :=
  λ w, (oracle (trace w), {| files := files w; trace := trace w ++ [ev] |}).

Definition print (line : str) : M unit := emit (Print line).

Definition write_file (path content : str) : M unit :=
  λ w, (Ok tt, {| files := <[path := content]> (files w);
                  trace := trace w ++ [Write path content] |}).

Definition read_text (env : Env) (path : str) : M str :=
  λ w, match files w !! path with
       | Some content => (decode_text env content, w)
       | None => (Raise FileNotFoundError, w)
       end.

Definition download (env : Env) (url path : str) : M unit :=
  let* content := call (λ h, requests_get env h url) (Get url) in
  write_file path content.

(** [str(path.absolute())] *)
Definition absolute (env : Env) (path : str) : str :=
  if startswith (lit "/") path then path else cwd env ++ lit "/" ++ path.

(** ** Document ingestor: [process_pdfs] *)

Fixpoint process_pdfs_loop (env : Env) (total i : nat) (pdfs : list Path)
    (results : list PDFMetadata) : M (list PDFMetadata) :=
  match pdfs with
  | [] => ret results
  | pdf_path :: rest =>
      do* print (concat [ lit "Processing PDF "; str_of_Z (Z.of_nat i + 1);
                      lit "/"; str_of_Z (Z.of_nat total); lit ": ";
                      path_name pdf_path ]) in
      let* markdown_url := call (λ h, pdf_extractor env h pdf_path) (Extract pdf_path) in
      let markdown_path := lit "/tmp/result.md" in
      do* download env markdown_url markdown_path in
      let* markdown_text := read_text env markdown_path in
      let pdf_data :=
        {| filename := path_name pdf_path;
           markdown := markdown_text;
           type := if decide (i = 0) then lit "main" else lit "context" |} in
      process_pdfs_loop env total (S i) rest (results ++ [pdf_data])
  end.

Definition process_pdfs (env : Env) (pdfs : list Path) : M (list PDFMetadata) :=
  process_pdfs_loop env (length pdfs) 0 pdfs [].

(** ** Content planner: [generate_podcast_content] *)

Definition decode_line (line : json) : res DialogueEntry :=
  t ⇐ subscript line (lit "text") ;;
  s ⇐ subscript line (lit "speaker") ;;
  Ok {| text := t; speaker := s |}.

Definition decode_conversation (conversation_data : json) : res Conversation :=
  lines_obj ⇐ subscript conversation_data (lit "lines") ;;
  items ⇐ iterate lines_obj ;;
  entries ⇐ res_map decode_line items ;;
  t ⇐ subscript conversation_data (lit "title") ;;
  s ⇐ subscript conversation_data (lit "summary") ;;
  Ok {| title := t; summary := s; lines := entries |}.

(** The parsing that ends [generate_podcast_content]. *)
Definition parse_conversation (env : Env) (content_response : str) : res Conversation :=
  json_content ⇐ extract_json content_response ;;
  conversation_data ⇐ json_loads env json_content ;;
  decode_conversation conversation_data.

Definition generate_podcast_content (env : Env) (pdf_metadata : list PDFMetadata)
    (host_name guest_name : str) (duration_minutes : Z) (podcast_topic : str)
    (monologue : bool) : M Conversation :=
  let prompt1 := summary_prompt (all_pdf_text pdf_metadata) in
  let* summary := call (λ h, llm env h prompt1) (Llm prompt1) in
  do* print (lit "<<< PDF summary >>>") in
  do* print summary in
  let prompt2 := outline_prompt summary host_name guest_name duration_minutes
                   podcast_topic monologue in
  let* outline := call (λ h, llm env h prompt2) (Llm prompt2) in
  do* print (lit "<<< Podcast outline >>>") in
  do* print outline in
  let content_prompt :=
    if monologue
    then monologue_prompt outline summary host_name duration_minutes
    else dialogue_prompt outline summary host_name guest_name duration_minutes in
  let* content_response := call (λ h, llm env h content_prompt) (Llm content_prompt) in
  do* print (lit "<<< Podcast content >>>") in
  do* print content_response in
  lift (parse_conversation env content_response).

(** ** Voice mapper *)

(** The loop over the speakers beyond the second, [i] being the index of the
    first of them. *)
Fixpoint map_extra_speakers (host_voice guest_voice : str) (i : nat)
    (extras : list key) (voice_mapping : gmap key str) : gmap key str :=
  match extras with
  | [] => voice_mapping
  | speaker :: rest =>
      map_extra_speakers host_voice guest_voice (S i) rest
        (<[speaker := if Nat.even i then host_voice else guest_voice]> voice_mapping)
  end.

(** The voice mapping built from the speakers in the order the set gives
    them. *)
Definition build_voice_mapping (monologue : bool) (host_voice guest_voice : str)
    (speaker_list : list key) : gmap key str :=
  if monologue then
    foldl (λ voice_mapping speaker, <[speaker := host_voice]> voice_mapping)
      ∅ speaker_list
  else
    let voice_mapping : gmap key str := ∅ in
    let voice_mapping :=
      match speaker_list !! 0 with
      | Some speaker => <[speaker := host_voice]> voice_mapping
      | None => voice_mapping
      end in
    let voice_mapping :=
      match speaker_list !! 1 with
      | Some speaker => <[speaker := guest_voice]> voice_mapping
      | None => voice_mapping
      end in
    map_extra_speakers host_voice guest_voice 2 (drop 2 speaker_list) voice_mapping.

(** [set(entry.speaker for entry in conversation.lines)], by the keys of its
    elements in insertion order. *)
Definition speaker_keys (conversation : Conversation) : res (list key) :=
  res_map (λ entry, key_of (speaker entry)) (lines conversation).

(** The voice mapping [generate_audio] sets up before it dispatches anything:
    the set of speakers, then the mapping in the set's iteration order. *)
Definition voice_assignment (env : Env) (conversation : Conversation)
    (host_voice guest_voice : str) (monologue : bool) : res (gmap key str) :=
  speakers ⇐ speaker_keys conversation ;;
  Ok (build_voice_mapping monologue host_voice guest_voice (set_order env speakers)).

(** Every Python set iterates over its elements, each once. *)
Definition set_order_ok (env : Env) : Prop :=
  ∀ l : list key, NoDup (set_order env l) ∧ ∀ k, k ∈ set_order env l ↔ k ∈ l.

(** [voice_mapping[speaker]] *)
Definition lookup_voice (voice_mapping : gmap key str) (speaker : json) : res str :=
  k ⇐ key_of speaker ;;
  match voice_mapping !! k with
  | Some voice => Ok voice
  | None => Raise KeyError
  end.

(** ** Audio synthesizer and assembler *)

Definition synthesis_request (entry_text : json) (voice : str) : tts_request :=
  {| req_text := entry_text; voice_id := voice; sample_rate := 44100;
     english_normalization := true; language_boost := lit "English" |}.

Fixpoint dispatch_loop (env : Env) (voice_mapping : gmap key str)
    (entries : list DialogueEntry) (audio_tasks : list nat) : M (list nat) :=
  match entries with
  | [] => ret audio_tasks
  | entry :: rest =>
      let* voice := lift (lookup_voice voice_mapping (speaker entry)) in
      let request := synthesis_request (text entry) voice in
      let* audio_task := call (λ h, tts_start env h request) (TtsStart request) in
      dispatch_loop env voice_mapping rest (audio_tasks ++ [audio_task])
  end.

Definition segment_path (i : nat) : str :=
  concat [ lit "/tmp/audio-"; str_of_Z (Z.of_nat i); lit ".mp3" ].

Fixpoint collect_loop (env : Env) (i : nat) (audio_tasks : list nat)
    (all_audio_segments : list str) : M (list str) :=
  match audio_tasks with
  | [] => ret all_audio_segments
  | audio_task :: rest =>
      let* audio_result := call (λ h, tts_wait env h audio_task) (TtsWait audio_task) in
      do* download env audio_result (segment_path i) in
      collect_loop env (S i) rest (all_audio_segments ++ [segment_path i])
  end.

Definition manifest_line (env : Env) (audio_file : str) : str :=
  concat [ lit "file '"; absolute env audio_file; lit "'"; nl ].

Definition ffmpeg_cmd (file_list_path output_path : str) : list str :=
  [ lit "ffmpeg"; lit "-y"; lit "-f"; lit "concat"; lit "-safe"; lit "0";
    lit "-i"; file_list_path; lit "-c"; lit "copy"; output_path ].

Definition combine_audio_files (env : Env) (audio_files : list str)
    (output_path : str) : M unit :=
  let file_list_path := lit "/tmp/file_list.txt" in
  do* write_file file_list_path (concat (manifest_line env <$> audio_files)) in
  let cmd := ffmpeg_cmd file_list_path output_path in
  λ w, match subprocess_run env (trace w) (files w) cmd with
       | Ok files' => (Ok tt, {| files := files'; trace := trace w ++ [Run cmd] |})
       | Raise e => (Raise e, {| files := files w; trace := trace w ++ [Run cmd] |})
       end.

Definition generate_audio (env : Env) (conversation : Conversation)
    (host_voice guest_voice : str) (monologue : bool) : M str :=
  let* voice_mapping :=
    lift (voice_assignment env conversation host_voice guest_voice monologue) in
  let* audio_tasks := dispatch_loop env voice_mapping (lines conversation) [] in
  let* all_audio_segments := collect_loop env 0 audio_tasks [] in
  do* print (lit "TTS completed, combining audio files") in
  let combined_audio_path := lit "podcast.mp3" in
  do* combine_audio_files env all_audio_segments combined_audio_path in
  ret combined_audio_path.

(** ** The pipeline: [pdf_to_podcast] *)

Definition pdf_to_podcast (env : Env) (pdfs : list Path)
    (host_name guest_name host_voice guest_voice : str) (duration_minutes : Z)
    (podcast_topic : str) (monologue : bool) : M str :=
  let* pdf_metadata := process_pdfs env pdfs in
  let* conversation := generate_podcast_content env pdf_metadata host_name guest_name
                   duration_minutes podcast_topic monologue in
  let* audio_path := generate_audio env conversation host_voice guest_voice monologue in
  ret audio_path.

(** ** Facts about searching and splitting *)

Lemma startswith_spec (p s : str) : startswith p s = true ↔ ∃ t, s = p ++ t.
Proof.
  revert s. induction p as [|a p IH]; intros s; simpl.
  - split; [eauto | done].
  - destruct s as [|b s].
    + split; [done | intros [t Ht]; done].
    + rewrite andb_true_iff, N.eqb_eq, IH. split.
      * intros [-> [t ->]]. eauto.
      * intros [t [= -> ->]]. eauto.
Qed.

Lemma startswith_app (p t : str) : startswith p (p ++ t) = true.
Proof. apply startswith_spec. eauto. Qed.

(** Whether [p] starts [l ++ t] is decided inside [l] when [l] is long enough. *)
Lemma startswith_app_long (p l t : str) :
  length p ≤ length l → startswith p (l ++ t) = startswith p l.
Proof.
  revert l. induction p as [|a p IH]; intros l Hl; [done|].
  destruct l as [|b l]; simpl in *; [lia|].
  rewrite IH; [done | lia].
Qed.

Lemma startswith_trans (p q s : str) :
  startswith p q = true → startswith q s = true → startswith p s = true.
Proof.
  rewrite !startswith_spec. intros [t ->] [u ->]. exists (t ++ u). by rewrite <-app_assoc.
Qed.

(** [find] returns the leftmost position at which [sep] starts. *)
Lemma find_Some (sep s : str) (i : nat) :
  find sep s = Some i ↔
  startswith sep (drop i s) = true ∧ i ≤ length s
  ∧ ∀ j, j < i → startswith sep (drop j s) = false.
Proof.
  revert i. induction s as [|c s IH]; intros i.
  - simpl. destruct (startswith sep []) eqn:E.
    + split.
      * intros [= <-]. simpl. split_and!; [done | lia | intros; lia].
      * intros (_ & Hi & _). simpl in Hi. by replace i with 0 by lia.
    + split; [done|]. intros (H & _ & _). rewrite drop_nil in H. congruence.
  - cbn [find]. destruct (startswith sep (c :: s)) eqn:E.
    + split.
      * intros [= <-]. split_and!; [done | simpl; lia | intros; lia].
      * intros (_ & _ & Hmin). destruct i as [|i]; [done|].
        specialize (Hmin 0 ltac:(lia)). simpl in Hmin. congruence.
    + destruct i as [|i].
      * split.
        -- destruct (find sep s); done.
        -- intros (H & _). simpl in H. congruence.
      * split.
        -- destruct (find sep s) as [k|] eqn:Ek; [|done]. intros [= <-].
           destruct (proj1 (IH k) eq_refl) as (H1 & H2 & H3).
           split_and!; [done | simpl; lia |].
           intros [|j] Hj; [done|]. simpl. apply H3. lia.
        -- intros (H1 & H2 & H3). simpl in H1, H2.
           assert (find sep s = Some i) as ->; [|done].
           apply IH. split_and!; [done | lia |].
           intros j Hj. apply (H3 (S j)). lia.
Qed.

Lemma find_None (sep s : str) :
  find sep s = None ↔ ∀ j, startswith sep (drop j s) = false.
Proof.
  induction s as [|c s IH].
  - simpl. destruct (startswith sep []) eqn:E.
    + split; [done|]. intros H. specialize (H 0). simpl in H. congruence.
    + split; [|done]. intros _ j. by rewrite drop_nil.
  - cbn [find]. destruct (startswith sep (c :: s)) eqn:E.
    + split; [done|]. intros H. specialize (H 0). simpl in H. congruence.
    + destruct (find sep s) as [k|] eqn:Ek.
      * split; [done|]. intros H.
        assert (Some k = None) as Hk; [|done].
        apply IH. intros j. apply (H (S j)).
      * split; [|done]. intros _ [|j]; [done|]. simpl. by apply IH.
Qed.

Lemma find_length (sep s : str) (i : nat) :
  find sep s = Some i → i + length sep ≤ length s.
Proof.
  intros (H & Hi & _)%find_Some. apply startswith_spec in H as [t Ht].
  apply (f_equal length) in Ht. rewrite length_drop, length_app in Ht. lia.
Qed.

Lemma find_split (sep s : str) (i : nat) :
  find sep s = Some i → s = take i s ++ sep ++ drop (i + length sep) s.
Proof.
  intros (H & Hi & _)%find_Some. apply startswith_spec in H as [t Ht].
  rewrite <-(take_drop i s) at 1. f_equal.
  rewrite <-drop_drop, Ht. by rewrite drop_app_length.
Qed.

(** The first occurrence in [a ++ sep ++ b] is at [length a] exactly when
    [sep] starts nowhere earlier; that does not depend on [b]. *)
Lemma find_app_tail (sep a b b' : str) :
  find sep (a ++ sep ++ b) = Some (length a) →
  find sep (a ++ sep ++ b') = Some (length a).
Proof.
  rewrite !find_Some. intros (_ & _ & Hmin). split_and!.
  - rewrite drop_app_length. apply startswith_app.
  - rewrite length_app. lia.
  - intros j Hj. specialize (Hmin j Hj).
    rewrite drop_app_le in Hmin |- * by lia.
    rewrite app_assoc in Hmin |- *.
    rewrite startswith_app_long in Hmin |- *; [done | |];
      rewrite length_app, length_drop; lia.
Qed.

Lemma find_take_None (sep s : str) (i : nat) :
  sep ≠ [] → find sep s = Some i → find sep (take i s) = None.
Proof.
  intros Hsep (_ & Hi & Hmin)%find_Some. apply find_None. intros j.
  destruct (decide (j < i)) as [Hj|Hj].
  - destruct (startswith sep (drop j (take i s))) eqn:E; [|done].
    rewrite <-(Hmin j Hj). symmetry.
    apply startswith_spec in E as [t Ht]. apply startswith_spec.
    exists (t ++ drop i s).
    rewrite <-(take_drop i s) at 1. rewrite drop_app_le by (rewrite length_take; lia).
    rewrite Ht. by rewrite <-app_assoc.
  - rewrite drop_ge by (rewrite length_take; lia).
    by destruct sep.
Qed.

Lemma contains_true (sep s : str) : contains sep s = true ↔ ∃ i, find sep s = Some i.
Proof. unfold contains. rewrite bool_decide_eq_true. done. Qed.

Lemma contains_false (sep s : str) : contains sep s = false ↔ find sep s = None.
Proof.
  unfold contains. rewrite bool_decide_eq_false, <-eq_None_not_Some. done.
Qed.

Lemma find_nil_sep (sep : str) : sep ≠ [] → find sep [] = None.
Proof. by destruct sep. Qed.

(** Any amount of fuel from [length s] on gives the same pieces. *)
Lemma split_fuel_enough (sep s : str) (n m : nat) :
  sep ≠ [] → length s ≤ n → length s ≤ m →
  split_fuel n sep s = split_fuel m sep s.
Proof.
  intros Hsep. revert s m. induction n as [|n IH]; intros s m Hn Hm.
  - destruct s; [|simpl in Hn; lia].
    destruct m; cbn [split_fuel]; [done|]. by rewrite find_nil_sep.
  - destruct m as [|m].
    + destruct s; [|simpl in Hm; lia]. cbn [split_fuel]. by rewrite find_nil_sep.
    + cbn [split_fuel]. destruct (find sep s) as [i|] eqn:Ei; [|done].
      f_equal. apply find_length in Ei.
      assert (0 < length sep) by (destruct sep; [done | simpl; lia]).
      apply IH; rewrite length_drop; lia.
Qed.

(** The unfolding equation of [str.split]. *)
Lemma split_unfold (sep s : str) :
  sep ≠ [] →
  split sep s =
    match find sep s with
    | None => Ok [s]
    | Some i =>
        rest ⇐ split sep (drop (i + length sep) s) ;; Ok (take i s :: rest)
    end.
Proof.
  intros Hsep. unfold split. destruct sep as [|a sep]; [done|].
  destruct (find (a :: sep) s) as [i|] eqn:Ei.
  - pose proof (find_length _ _ _ Ei) as Hlen. simpl in Hlen.
    destruct (length s) as [|n] eqn:En; [lia|].
    cbn [split_fuel res_bind]. rewrite Ei. do 2 f_equal.
    apply split_fuel_enough; [done | |done].
    rewrite length_drop. simpl. lia.
  - destruct (length s); simpl; by rewrite ?Ei.
Qed.

(** [sep.join(parts)] *)
Fixpoint join (sep : str) (parts : list str) : str :=
  match parts with
  | [] => []
  | [p] => p
  | p :: rest => p ++ sep ++ join sep rest
  end.

Lemma split_fuel_join (sep s : str) (n : nat) :
  sep ≠ [] → length s ≤ n →
  join sep (split_fuel n sep s) = s
  ∧ Forall (λ piece, find sep piece = None) (split_fuel n sep s).
Proof.
  intros Hsep. revert s. induction n as [|n IH]; intros s Hn.
  - destruct s; [|simpl in Hn; lia]. cbn [split_fuel join].
    split; [done|]. constructor; [by apply find_nil_sep | constructor].
  - cbn [split_fuel]. destruct (find sep s) as [i|] eqn:Ei.
    + pose proof (find_length _ _ _ Ei) as Hlen.
      assert (0 < length sep) by (destruct sep; [done | simpl; lia]).
      destruct (IH (drop (i + length sep) s)) as [Hjoin Hall];
        [rewrite length_drop; lia|].
      split.
      * destruct (split_fuel n sep (drop (i + length sep) s)) as [|p rest] eqn:Er.
        { destruct n; cbn in Er; [done|].
          by destruct (find sep (drop (i + length sep) s)). }
        change (join sep (take i s :: p :: rest))
          with (take i s ++ sep ++ join sep (p :: rest)).
        rewrite Hjoin. symmetry. by apply find_split.
      * constructor; [by apply find_take_None | done].
    + cbn [join]. split; [done|]. by repeat constructor.
Qed.

(** [str.split] cuts at every occurrence: the pieces hold no separator, and
    joining them with the separator gives the string back. *)
Lemma split_join (sep s : str) (parts : list str) :
  split sep s = Ok parts →
  join sep parts = s ∧ Forall (λ piece, find sep piece = None) parts.
Proof.
  unfold split. destruct sep as [|a sep'] eqn:E; [done|]. intros [= <-].
  by apply split_fuel_join.
Qed.

(** [upto sep s] is [s] cut before the first occurrence of [sep], if any. *)
Definition upto (sep s : str) : str :=
  match find sep s with
  | Some i => take i s
  | None => s
  end.

Lemma split_index_0 (sep s : str) :
  sep ≠ [] → (parts ⇐ split sep s ;; index parts 0) = Ok (upto sep s).
Proof.
  intros Hsep. rewrite split_unfold by done. unfold upto.
  destruct (find sep s) as [i|]; [|done].
  unfold split. by destruct sep.
Qed.

Lemma split_index_1 (sep s : str) (i : nat) :
  sep ≠ [] → find sep s = Some i →
  (parts ⇐ split sep s ;; index parts 1)
  = Ok (upto sep (drop (i + length sep) s)).
Proof.
  intros Hsep Hi. rewrite split_unfold, Hi by done.
  pose proof (split_index_0 sep (drop (i + length sep) s) Hsep) as H0.
  destruct (split sep (drop (i + length sep) s)) as [rest|e]; [|done].
  simpl in *. unfold index in *. simpl. done.
Qed.

Lemma split_length_2 (sep s : str) :
  sep ≠ [] → contains sep s = true →
  ∃ parts, split sep s = Ok parts ∧ 2 ≤ length parts.
Proof.
  intros Hsep [i Hi]%contains_true. rewrite split_unfold, Hi by done.
  unfold split. destruct sep as [|a sep]; [done|]. simpl.
  eexists. split; [done|].
  destruct (length (drop _ s)); simpl; [lia|].
  destruct (find _ (drop _ _)); cbn [length]; lia.
Qed.

Lemma upto_no_sep (sep s : str) :
  sep ≠ [] → find sep (upto sep s) = None.
Proof.
  intros Hsep. unfold upto. destruct (find sep s) as [i|] eqn:Ei; [|done].
  by apply find_take_None.
Qed.

Lemma upto_idemp (sep s : str) : sep ≠ [] → upto sep (upto sep s) = upto sep s.
Proof. intros Hsep. unfold upto at 1. by rewrite upto_no_sep. Qed.

Lemma fence_nonempty : fence ≠ [].
Proof. done. Qed.

Lemma fence_json_nonempty : fence_json ≠ [].
Proof. done. Qed.

(** The [json]-labelled marker begins with the plain marker. *)
Lemma fence_starts_fence_json : startswith fence fence_json = true.
Proof. reflexivity. Qed.

Lemma find_fence_json_fence (s : str) (i : nat) :
  find fence_json s = Some i → ∃ j, find fence s = Some j ∧ j ≤ i.
Proof.
  intros (H & Hi & _)%find_Some.
  destruct (find fence s) as [j|] eqn:Ej.
  - exists j. split; [done|]. apply find_Some in Ej as (_ & _ & Hmin).
    destruct (decide (j ≤ i)); [done|].
    specialize (Hmin i ltac:(lia)).
    by rewrite (startswith_trans _ _ _ fence_starts_fence_json H) in Hmin.
  - rewrite find_None in Ej. specialize (Ej i).
    by rewrite (startswith_trans _ _ _ fence_starts_fence_json H) in Ej.
Qed.

(** What [extract_json] computes, in terms of first occurrences. *)
Lemma extract_json_eq (content : str) :
  extract_json content =
    match find fence_json content with
    | Some i =>
        Ok (strip (upto fence (upto fence_json (drop (i + 7) content))))
    | None =>
        match find fence content with
        | Some i => Ok (strip (upto fence (drop (i + 3) content)))
        | None => Ok content
        end
    end.
Proof.
  unfold extract_json.
  destruct (find fence_json content) as [i|] eqn:Ei.
  - rewrite (proj2 (contains_true _ _)) by eauto.
    pose proof (split_index_1 _ _ _ fence_json_nonempty Ei) as H1.
    destruct (split fence_json content) as [parts|]; [|done].
    cbn [res_bind] in *. rewrite H1. cbn [res_bind].
    pose proof (split_index_0 fence
      (upto fence_json (drop (i + length fence_json) content)) fence_nonempty) as H0.
    destruct (split fence _) as [inner|]; [|done].
    cbn [res_bind] in *. by rewrite H0.
  - rewrite (proj2 (contains_false _ _)) by done.
    destruct (find fence content) as [i|] eqn:Ej.
    + rewrite (proj2 (contains_true _ _)) by eauto.
      pose proof (split_index_1 _ _ _ fence_nonempty Ej) as H1.
      destruct (split fence content) as [parts|]; [|done].
      cbn [res_bind] in *. rewrite H1. cbn [res_bind].
      pose proof (split_index_0 fence
        (upto fence (drop (i + length fence) content)) fence_nonempty) as H0.
      destruct (split fence _) as [inner|]; [|done].
      cbn [res_bind] in *. rewrite H0. by rewrite upto_idemp.
    + by rewrite (proj2 (contains_false _ _)).
Qed.

(** *** The parser's precedence *)

(** The specification's reading of the fenced case: the payload is the text
    between the opening [json] marker and the next closing marker, verbatim. *)
Definition fenced_payload_verbatim : Prop :=
  ∀ pre mid post : str,
    find fence_json (pre ++ fence_json ++ mid ++ fence ++ post) = Some (length pre) →
    find fence (mid ++ fence ++ post) = Some (length mid) →
    extract_json (pre ++ fence_json ++ mid ++ fence ++ post) = Ok mid.

(** The text between the markers once the closing marker has been located.
    The first split ends the remainder at the next [json]-labelled marker,
    which may begin inside the closing marker or right at its end. *)
Lemma upto_fence_body (mid post : str) :
  find fence (mid ++ fence ++ post) = Some (length mid) →
  startswith (lit "`json") post = false →
  startswith (lit "``json") post = false →
  upto fence (upto fence_json (mid ++ fence ++ post)) = mid.
Proof.
  intros Hmid Hpost1 Hpost2.
  assert (upto fence (mid ++ fence ++ post) = mid) as Hplain.
  { unfold upto. rewrite Hmid. by rewrite take_app_length. }
  assert (find fence mid = None) as Hnone.
  { rewrite <-(take_app_length mid (fence ++ post)).
    by apply find_take_None. }
  unfold upto at 2.
  destruct (find fence_json (mid ++ fence ++ post)) as [k|] eqn:Ek; [|done].
  destruct (find_fence_json_fence _ _ Ek) as (j & Hj & Hjk).
  rewrite Hmid in Hj. injection Hj as <-.
  apply find_Some in Ek as (Hk & _ & _).
  destruct (decide (length mid + 3 ≤ k)) as [Hlong|Hshort].
  - replace k with (length mid + (3 + (k - length mid - 3))) by lia.
    rewrite take_app_add, (take_app_add fence). unfold upto.
    rewrite (find_app_tail _ _ _ _ Hmid). by rewrite take_app_length.
  - assert (k = length mid ∨ k = length mid + 1 ∨ k = length mid + 2)
      as [->|[->| ->]] by lia.
    + rewrite take_app_length. unfold upto. by rewrite Hnone.
    + exfalso. rewrite drop_app_add in Hk.
      change (drop 1 (fence ++ post)) with (lit "``" ++ post) in Hk.
      change fence_json with (lit "``" ++ lit "`json") in Hk.
      apply startswith_spec in Hk as [t Ht]. rewrite <-app_assoc in Ht.
      apply app_inv_head in Ht as ->. by rewrite startswith_app in Hpost1.
    + exfalso. rewrite drop_app_add in Hk.
      change (drop 2 (fence ++ post)) with (lit "`" ++ post) in Hk.
      change fence_json with (lit "`" ++ lit "``json") in Hk.
      apply startswith_spec in Hk as [t Ht]. rewrite <-app_assoc in Ht.
      apply app_inv_head in Ht as ->. by rewrite startswith_app in Hpost2.
Qed.

Lemma extract_json_no_fence (content : str) :
  contains fence content = false → extract_json content = Ok content.
Proof.
  intros Hno. rewrite extract_json_eq. apply contains_false in Hno.
  destruct (find fence_json content) as [i|] eqn:Ei.
  - destruct (find_fence_json_fence _ _ Ei) as (j & Hj & _). congruence.
  - by rewrite Hno.
Qed.

(** C1 (as the code has it): when the reply holds a [json]-labelled marker,
    the payload is the text between the first such marker and the next
    closing marker with the surrounding whitespace stripped, whatever prose
    precedes or follows, unless a further [json]-labelled marker begins
    inside the closing marker or right at its end (the closing marker is
    followed by one or two backquotes and "json"); failing that, when it
    holds a plain marker, the stripped text between the first pair of
    markers; failing that, the reply unchanged. *)
Theorem extract_json_precedence (content : str) :
  (∀ pre mid post : str,
     content = pre ++ fence_json ++ mid ++ fence ++ post →
     find fence_json content = Some (length pre) →
     find fence (mid ++ fence ++ post) = Some (length mid) →
     startswith (lit "`json") post = false →
     startswith (lit "``json") post = false →
     extract_json content = Ok (strip mid))
  ∧ (∀ pre mid post : str,
     contains fence_json content = false →
     content = pre ++ fence ++ mid ++ fence ++ post →
     find fence content = Some (length pre) →
     find fence (mid ++ fence ++ post) = Some (length mid) →
     extract_json content = Ok (strip mid))
  ∧ (contains fence content = false → extract_json content = Ok content).
Proof.
  split_and!.
  - intros pre mid post Hc Hpre Hmid Hpost1 Hpost2.
    rewrite extract_json_eq, Hpre, Hc.
    change 7 with (length fence_json).
    rewrite drop_app_add, drop_app_length.
    by rewrite upto_fence_body.
  - intros pre mid post Hno Hc Hpre Hmid.
    rewrite extract_json_eq. apply contains_false in Hno. rewrite Hno, Hpre, Hc.
    change 3 with (length fence).
    rewrite drop_app_add, drop_app_length.
    unfold upto. rewrite Hmid. by rewrite take_app_length.
  - apply extract_json_no_fence.
Qed.

(** The three branches of the precedence on concrete replies, and a reply
    whose closing marker is followed by a backquote. *)
Lemma extract_json_precedence_witness :
  extract_json (lit "``` x ``` then ```json" ++ nl ++ lit "{}" ++ nl ++ lit "``` end")
    = Ok (lit "{}")
  ∧ extract_json (lit "```json x ```` tail") = Ok (lit "x")
  ∧ extract_json (lit "so: ```" ++ nl ++ lit "[1]" ++ nl ++ lit "``` end")
    = Ok (lit "[1]")
  ∧ extract_json (lit "[2] ") = Ok (lit "[2] ").
Proof.
  split_and!.
  - apply (proj1 (extract_json_precedence _)
             (lit "``` x ``` then ") (nl ++ lit "{}" ++ nl) (lit " end"));
      vm_compute; reflexivity.
  - apply (proj1 (extract_json_precedence _) [] (lit " x ") (lit "` tail"));
      vm_compute; reflexivity.
  - apply (proj1 (proj2 (extract_json_precedence _))
             (lit "so: ") (nl ++ lit "[1]" ++ nl) (lit " end"));
      vm_compute; reflexivity.
  - apply (proj2 (proj2 (extract_json_precedence _))). vm_compute. reflexivity.
Defined.

(** The payload of a fenced reply is not the verbatim fenced text: the
    whitespace around it is removed.  Nor is it always the stripped text
    before the closing marker: when a further [json]-labelled marker begins
    inside the closing marker (the reply [```jsonx````json]) or right at its
    end ([```jsonx`````json]), the first split cuts there, and the
    backquotes before that marker stay in the payload. *)
Lemma fenced_payload_is_stripped :
  extract_json (fence_json ++ nl ++ lit "{}" ++ nl ++ fence) = Ok (lit "{}")
  ∧ extract_json (fence_json ++ nl ++ lit "{}" ++ nl ++ fence)
    ≠ Ok (nl ++ lit "{}" ++ nl)
  ∧ ¬ fenced_payload_verbatim
  ∧ find fence (lit "x" ++ fence ++ lit "`json") = Some (length (lit "x"))
  ∧ extract_json (fence_json ++ lit "x" ++ fence ++ lit "`json") = Ok (lit "x`")
  ∧ find fence (lit "x" ++ fence ++ lit "``json") = Some (length (lit "x"))
  ∧ extract_json (fence_json ++ lit "x" ++ fence ++ lit "``json") = Ok (lit "x``").
Proof.
  split_and!.
  - vm_compute. reflexivity.
  - vm_compute. by intros [=].
  - intros H. specialize (H [] (nl ++ lit "{}" ++ nl) []).
    vm_compute in H. by specialize (H eq_refl eq_refl).
  - vm_compute. reflexivity.
  - vm_compute. reflexivity.
  - vm_compute. reflexivity.
  - vm_compute. reflexivity.
Qed.

(** C10: [extract_json] returns a string on every reply.  Splitting a reply
    on a marker it contains gives at least two pieces, so the access at index
    1 is in range; a reply with no marker comes back unchanged; a reply that
    ends exactly at its first opening marker gives the empty payload. *)
Theorem extract_json_total (content : str) :
  (∃ payload, extract_json content = Ok payload)
  ∧ (contains fence_json content = true →
     ∃ parts, split fence_json content = Ok parts ∧ 2 ≤ length parts)
  ∧ (contains fence content = true →
     ∃ parts, split fence content = Ok parts ∧ 2 ≤ length parts)
  ∧ (contains fence content = false → extract_json content = Ok content)
  ∧ (find fence_json (content ++ fence_json) = Some (length content) →
     extract_json (content ++ fence_json) = Ok [])
  ∧ (find fence (content ++ fence) = Some (length content) →
     extract_json (content ++ fence) = Ok []).
Proof.
  split_and!.
  - rewrite extract_json_eq. repeat case_match; eauto.
  - by apply split_length_2.
  - by apply split_length_2.
  - apply extract_json_no_fence.
  - intros Hend. rewrite extract_json_eq, Hend. by rewrite drop_app_add.
  - intros Hend. rewrite extract_json_eq, Hend.
    destruct (find fence_json (content ++ fence)) as [i|] eqn:Ei.
    + exfalso. pose proof (find_length _ _ _ Ei) as Hlen.
      rewrite length_app in Hlen. change (length fence_json) with 7 in Hlen.
      change (length fence) with 3 in Hlen.
      destruct (find_fence_json_fence _ _ Ei) as (j & Hj & Hji).
      rewrite Hend in Hj. injection Hj as <-. lia.
    + by rewrite drop_app_add.
Qed.

Lemma extract_json_total_witness :
  (∃ payload, extract_json (lit "see ```json") = Ok payload)
  ∧ (∃ parts, split fence_json (lit "see ```json") = Ok parts ∧ 2 ≤ length parts)
  ∧ (∃ parts, split fence (lit "see ```json") = Ok parts ∧ 2 ≤ length parts)
  ∧ extract_json (lit "see ```json") = Ok []
  ∧ extract_json (lit "plain") = Ok (lit "plain")
  ∧ extract_json (lit "plain" ++ fence) = Ok [].
Proof.
  pose proof (extract_json_total (lit "see ```json")) as (H1 & H2 & H3 & _).
  pose proof (extract_json_total (lit "see ")) as (_ & _ & _ & _ & H5 & _).
  pose proof (extract_json_total (lit "plain")) as (_ & _ & _ & H4 & _ & H6).
  split_and!; [exact H1 | apply H2 | apply H3 | apply H5 | apply H4 | apply H6];
    vm_compute; reflexivity.
Defined.

(** ** The summarization input *)

(** Unfolds the steps of a run down to the calls to the collaborators. *)
Ltac run_step :=
  repeat progress
    (unfold bind, call, lift, print, emit, write_file, download, ret in *;
     cbn [fst snd files trace] in *).

Lemma joined_pdf_text_concat (pdf_metadata : list PDFMetadata) :
  joined_pdf_text pdf_metadata = concat (pdf_section <$> pdf_metadata).
Proof.
  unfold joined_pdf_text.
  assert (∀ acc, foldl (λ t pdf, t ++ pdf_section pdf) acc pdf_metadata
                 = acc ++ concat (pdf_section <$> pdf_metadata)) as H.
  { induction pdf_metadata as [|pdf l IH]; intros acc; simpl.
    - by rewrite app_nil_r.
    - by rewrite IH, <-app_assoc. }
  apply H.
Qed.





Definition one_short_document : list PDFMetadata :=
  [ {| filename := lit "a.pdf"; markdown := lit "hello"; type := lit "main" |} ].


(** ** The voice mapping *)

Definition voice_at (host_voice guest_voice : str) (i : nat) : str :=
  if Nat.even i then host_voice else guest_voice.

Lemma map_extra_speakers_notin host guest i extras (vm : gmap key str) k :
  k ∉ extras → map_extra_speakers host guest i extras vm !! k = vm !! k.
Proof.
  revert i vm. induction extras as [|s extras IH]; intros i vm Hk; [done|].
  apply not_elem_of_cons in Hk as [Hne Hk]. cbn [map_extra_speakers].
  rewrite IH by done. by rewrite lookup_insert_ne.
Qed.

Lemma map_extra_speakers_in host guest i extras (vm : gmap key str) j k :
  NoDup extras → extras !! j = Some k →
  map_extra_speakers host guest i extras vm !! k = Some (voice_at host guest (i + j)).
Proof.
  revert i vm j. induction extras as [|s extras IH]; intros i vm j Hnd Hj; [done|].
  apply list.NoDup_cons in Hnd as [Hs Hnd]. cbn [map_extra_speakers].
  destruct j as [|j]; simplify_eq/=.
  - rewrite map_extra_speakers_notin by done.
    rewrite lookup_insert_eq. unfold voice_at. by rewrite Nat.add_0_r.
  - rewrite (IH _ _ j) by done. do 2 f_equal. lia.
Qed.

Lemma map_extra_speakers_dom host guest i extras (vm : gmap key str) :
  dom (map_extra_speakers host guest i extras vm) = list_to_set extras ∪ dom vm.
Proof.
  revert i vm. induction extras as [|s extras IH]; intros i vm; cbn [map_extra_speakers].
  - set_solver.
  - rewrite IH, dom_insert_L. set_solver.
Qed.

Lemma monologue_lookup host (l : list key) (vm : gmap key str) k :
  foldl (λ m s, <[s := host]> m) vm l !! k
  = if decide (k ∈ l) then Some host else vm !! k.
Proof.
  revert vm. induction l as [|s l IH]; intros vm; [done|].
  cbn [foldl]. rewrite IH.
  destruct (decide (k ∈ l)) as [Hin|Hnin].
  - rewrite decide_True; [done | by right].
  - destruct (decide (k = s)) as [->|Hne].
    + rewrite decide_True by left. by rewrite lookup_insert_eq.
    + rewrite decide_False by (intros [?|?]%elem_of_cons; done).
      by rewrite lookup_insert_ne.
Qed.

Lemma build_voice_mapping_dom monologue host guest (l : list key) :
  dom (build_voice_mapping monologue host guest l) = list_to_set l.
Proof.
  destruct monologue; cbn [build_voice_mapping].
  - apply set_eq. intros k. rewrite elem_of_dom, monologue_lookup, elem_of_list_to_set.
    destruct (decide (k ∈ l)); [by split; eauto|].
    rewrite lookup_empty. split; [by intros [? ?] | done].
  - rewrite map_extra_speakers_dom.
    destruct l as [|a [|b l]]; cbn; rewrite ?dom_insert_L, ?dom_empty_L; set_solver.
Qed.

Lemma build_voice_mapping_monologue host guest (l : list key) k :
  k ∈ l → build_voice_mapping true host guest l !! k = Some host.
Proof. intros Hk. cbn. rewrite monologue_lookup. by rewrite decide_True. Qed.

(** In a dialogue the speaker enumerated at position [i] gets the host voice
    when [i] is even and the guest voice when it is odd. *)
Lemma build_voice_mapping_dialogue host guest (l : list key) i k :
  NoDup l → l !! i = Some k →
  build_voice_mapping false host guest l !! k = Some (voice_at host guest i).
Proof.
  intros Hnd Hi. cbn [build_voice_mapping].
  destruct l as [|a l]; [done|]. destruct l as [|b l].
  - destruct i; simplify_eq/=. by rewrite lookup_insert_eq.
  - apply list.NoDup_cons in Hnd as [Ha Hnd]. apply list.NoDup_cons in Hnd as [Hb Hnd].
    apply not_elem_of_cons in Ha as [Hab Ha]. cbn.
    destruct i as [|[|i]]; simplify_eq/=.
    + rewrite map_extra_speakers_notin by done.
      by rewrite lookup_insert_ne, lookup_insert_eq.
    + rewrite map_extra_speakers_notin by done. by rewrite lookup_insert_eq.
    + by rewrite (map_extra_speakers_in _ _ _ _ _ i).
Qed.

Lemma lookup_voice_Some (vm : gmap key str) (v : json) k voice :
  key_of v = Ok k → vm !! k = Some voice → lookup_voice vm v = Ok voice.
Proof. intros Hk Hv. unfold lookup_voice. rewrite Hk. cbn. by rewrite Hv. Qed.

(** The keys of the speakers, line by line. *)
Lemma res_map_Ok {A B} (f : A → res B) (l : list A) (ys : list B) :
  res_map f l = Ok ys ↔ Forall2 (λ x y, f x = Ok y) l ys.
Proof.
  revert ys. induction l as [|x l IH]; intros ys; cbn.
  - split; [intros [= <-]; constructor | by intros ->%Forall2_nil_inv_l].
  - destruct (f x) as [y|e] eqn:Ex; cbn.
    + destruct (res_map f l) as [ys'|e] eqn:El; cbn.
      * split.
        -- intros [= <-]. constructor; [done | by apply IH].
        -- intros (y' & ys'' & Hy & Hys & ->)%Forall2_cons_inv_l.
           apply IH in Hys. congruence.
      * split; [done|].
        intros (y' & ys'' & Hy & Hys & ->)%Forall2_cons_inv_l.
        apply IH in Hys. done.
    + split; [done|].
      intros (y' & ys'' & Hy & Hys & ->)%Forall2_cons_inv_l. congruence.
Qed.

Lemma speaker_keys_elem (conversation : Conversation) (keys : list key) entry :
  speaker_keys conversation = Ok keys → entry ∈ lines conversation →
  ∃ k, key_of (speaker entry) = Ok k ∧ k ∈ keys.
Proof.
  intros Hk%res_map_Ok [i Hi]%list_elem_of_lookup.
  destruct (Forall2_lookup_l _ _ _ _ _ Hk Hi) as (k & Hki & Hkey).
  exists k. split; [done|]. by eapply list_elem_of_lookup_2.
Qed.

Lemma speaker_keys_elem_inv (conversation : Conversation) (keys : list key) k :
  speaker_keys conversation = Ok keys → k ∈ keys →
  ∃ entry, entry ∈ lines conversation ∧ key_of (speaker entry) = Ok k.
Proof.
  intros Hk%res_map_Ok [i Hi]%list_elem_of_lookup.
  destruct (Forall2_lookup_r _ _ _ _ _ Hk Hi) as (e & Hei & Hkey).
  exists e. split; [|done]. by eapply list_elem_of_lookup_2.
Qed.

Lemma res_map_total {A B} (f : A → res B) (l : list A) :
  (∀ x, x ∈ l → ∃ y, f x = Ok y) → ∃ ys, res_map f l = Ok ys.
Proof.
  induction l as [|x l IH]; intros Hf; [by eexists|].
  destruct (Hf x) as [y Hy]; [left|].
  destruct IH as [ys Hys]; [intros; apply Hf; by right|].
  exists (y :: ys). cbn. by rewrite Hy, Hys.
Qed.

Lemma voice_assignment_Ok (env : Env) (conversation : Conversation)
    (host guest : str) (monologue : bool) (keys : list key) :
  speaker_keys conversation = Ok keys →
  voice_assignment env conversation host guest monologue
  = Ok (build_voice_mapping monologue host guest (set_order env keys)).
Proof. intros Hk. unfold voice_assignment. by rewrite Hk. Qed.

(** A concrete set of collaborators: a set iterates over its elements in the
    order in which each was last inserted, every remote call succeeds, and the generation model always
    answers [reply], which decodes to [decoded]. *)
Definition demo_env (reply : str) (decoded : res json) : Env :=
  {| pdf_extractor := λ _ doc, Ok (lit "https://files/" ++ path_name doc);
     requests_get := λ _ url, Ok (lit "body of " ++ url);
     decode_text := Ok;
     llm := λ _ _, Ok reply;
     tts_start := λ h _, Ok (length h);
     tts_wait := λ _ task, Ok (lit "https://audio/" ++ str_of_Z (Z.of_nat task));
     subprocess_run := λ _ fs cmd, Ok (<[lit "podcast.mp3" := lit "mp3"]> fs);
     json_loads := λ _, decoded;
     set_order := remove_dups;
     cwd := lit "/src" |}.

Lemma demo_env_set_order_ok reply decoded : set_order_ok (demo_env reply decoded).
Proof.
  intros l. split; [apply NoDup_remove_dups | intros k; apply elem_of_remove_dups].
Qed.

Definition say (who what : string) : DialogueEntry :=
  {| text := JStr (lit what); speaker := JStr (lit who) |}.

Definition demo_dialogue : Conversation :=
  {| title := JStr (lit "T"); summary := JStr (lit "S");
     lines := [ say "Adam" "Hello."; say "Bella" "Hi."; say "Adam" "Bye." ] |}.

(** C6: in dialogue mode a script whose speakers are exactly "Adam" and
    "Bella" gets a voice mapping with exactly these two keys, one mapped to the
    host voice and the other to the guest voice. *)
Theorem dialogue_two_speakers (env : Env) (conversation : Conversation) (X Y : str) :
  set_order_ok env →
  (∀ entry, entry ∈ lines conversation →
     speaker entry = JStr (lit "Adam") ∨ speaker entry = JStr (lit "Bella")) →
  (∃ entry, entry ∈ lines conversation ∧ speaker entry = JStr (lit "Adam")) →
  (∃ entry, entry ∈ lines conversation ∧ speaker entry = JStr (lit "Bella")) →
  ∃ vm : gmap key str,
    voice_assignment env conversation X Y false = Ok vm
    ∧ dom vm = {[ KStr (lit "Adam"); KStr (lit "Bella") ]}
    ∧ size vm = 2
    ∧ (vm = {[ KStr (lit "Adam") := X; KStr (lit "Bella") := Y ]}
       ∨ vm = {[ KStr (lit "Adam") := Y; KStr (lit "Bella") := X ]}).
Proof.
  intros Hok Hall (ea & Hea & Ha) (eb & Heb & Hb).
  set (A := KStr (lit "Adam")). set (B := KStr (lit "Bella")).
  assert (A ≠ B) as Hne by done.
  destruct (res_map_total (λ entry, key_of (speaker entry)) (lines conversation))
    as [keys Hkeys].
  { intros e He. destruct (Hall e He) as [-> | ->]; by eexists. }
  rewrite (voice_assignment_Ok _ _ _ _ _ keys Hkeys).
  destruct (Hok keys) as [Hnd Hel].
  assert (∀ k, k ∈ set_order env keys ↔ k ∈ [A; B]) as Hab.
  { intros k. rewrite Hel. split.
    - intros (e & He & Hk)%(speaker_keys_elem_inv _ _ _ Hkeys).
      destruct (Hall e He) as [Hs|Hs]; rewrite Hs in Hk; cbn in Hk;
        injection Hk as <-; set_solver.
    - intros Hk.
      assert (k = A ∨ k = B) as [-> | ->] by set_solver.
      + destruct (speaker_keys_elem _ _ _ Hkeys Hea) as (k & Hk1 & Hk2).
        rewrite Ha in Hk1. by injection Hk1 as <-.
      + destruct (speaker_keys_elem _ _ _ Hkeys Heb) as (k & Hk1 & Hk2).
        rewrite Hb in Hk1. by injection Hk1 as <-. }
  assert ([A; B] ≡ₚ set_order env keys) as Hperm.
  { apply NoDup_Permutation; [|done|by intros k; rewrite Hab].
    apply NoDup_cons_2; [set_solver | apply NoDup_singleton]. }
  eexists. split; [done|].
  split; [rewrite build_voice_mapping_dom; set_solver|].
  apply Permutation_length_2_inv in Hperm as [-> | ->]; cbn.
  - split.
    + rewrite !map_size_insert_None, map_size_empty; [done|done|].
      by rewrite lookup_insert_ne.
    + left. rewrite insert_insert_ne by done. by rewrite insert_empty.
  - split.
    + rewrite !map_size_insert_None, map_size_empty; [done|done|].
      by rewrite lookup_insert_ne.
    + right. by rewrite insert_empty.
Qed.

Lemma dialogue_two_speakers_witness :
  ∃ vm : gmap key str,
    voice_assignment (demo_env [] (Raise JSONDecodeError)) demo_dialogue
      (lit "Patient_Man") (lit "Wise_Woman") false = Ok vm
    ∧ dom vm = {[ KStr (lit "Adam"); KStr (lit "Bella") ]}
    ∧ size vm = 2
    ∧ (vm = {[ KStr (lit "Adam") := lit "Patient_Man";
               KStr (lit "Bella") := lit "Wise_Woman" ]}
       ∨ vm = {[ KStr (lit "Adam") := lit "Wise_Woman";
                 KStr (lit "Bella") := lit "Patient_Man" ]}).
Proof.
  apply dialogue_two_speakers.
  - apply demo_env_set_order_ok.
  - intros entry Hin. cbn in Hin.
    repeat (apply elem_of_cons in Hin as [-> | Hin]; [by auto|]).
    by apply elem_of_nil in Hin.
  - exists (say "Adam" "Hello."). split; [left | done].
  - exists (say "Bella" "Hi."). split; [right; left | done].
Defined.

Definition demo_monologue : Conversation :=
  {| title := JStr (lit "T"); summary := JStr (lit "S");
     lines := [ say "Adam" "Welcome."; say "Adam" "Goodbye." ] |}.

(** C7: in monologue mode every speaker of the script is mapped to the host
    voice, and the mapping does not depend on the guest voice. *)
Theorem monologue_host_voice (env : Env) (conversation : Conversation)
    (host_voice guest_voice : str) (keys : list key) :
  set_order_ok env →
  speaker_keys conversation = Ok keys →
  ∃ vm : gmap key str,
    voice_assignment env conversation host_voice guest_voice true = Ok vm
    ∧ (∀ k, k ∈ keys → vm !! k = Some host_voice)
    ∧ (∀ entry, entry ∈ lines conversation →
         lookup_voice vm (speaker entry) = Ok host_voice)
    ∧ (∀ other_voice,
         voice_assignment env conversation host_voice other_voice true = Ok vm).
Proof.
  intros Hok Hkeys. destruct (Hok keys) as [_ Hel].
  eexists. split; [by apply voice_assignment_Ok|]. split_and!.
  - intros k Hk. apply build_voice_mapping_monologue. by apply Hel.
  - intros entry He.
    destruct (speaker_keys_elem _ _ _ Hkeys He) as (k & Hk & Hin).
    apply (lookup_voice_Some _ _ k); [done|].
    apply build_voice_mapping_monologue. by apply Hel.
  - intros other. by rewrite (voice_assignment_Ok _ _ _ _ _ keys).
Qed.

Lemma monologue_host_voice_witness :
  ∃ vm : gmap key str,
    voice_assignment (demo_env [] (Raise JSONDecodeError)) demo_monologue
      (lit "Patient_Man") (lit "Wise_Woman") true = Ok vm
    ∧ vm !! KStr (lit "Adam") = Some (lit "Patient_Man")
    ∧ voice_assignment (demo_env [] (Raise JSONDecodeError)) demo_monologue
        (lit "Patient_Man") (lit "Calm_Woman") true = Ok vm.
Proof.
  destruct (monologue_host_voice (demo_env [] (Raise JSONDecodeError)) demo_monologue
              (lit "Patient_Man") (lit "Wise_Woman")
              [KStr (lit "Adam"); KStr (lit "Adam")])
    as (vm & Hvm & Hkeys & _ & Hother).
  - apply demo_env_set_order_ok.
  - reflexivity.
  - exists vm. split_and!; [done | apply Hkeys; left | apply Hother].
Defined.

Definition demo_panel : Conversation :=
  {| title := JStr (lit "T"); summary := JStr (lit "S");
     lines := [ say "Adam" "One."; say "Bella" "Two."; say "Carl" "Three.";
                say "Adam" "Four."; say "Dora" "Five." ] |}.

(** C8: in dialogue mode the first enumerated speaker is mapped to the host
    voice, the second to the guest voice, and each further speaker, at
    position [i >= 2] of the enumeration, to the host voice when [i] is even
    and to the guest voice when [i] is odd. *)
Theorem dialogue_extra_speakers (env : Env) (conversation : Conversation)
    (host_voice guest_voice : str) (keys : list key) :
  set_order_ok env →
  speaker_keys conversation = Ok keys →
  2 < length (set_order env keys) →
  ∃ vm : gmap key str,
    voice_assignment env conversation host_voice guest_voice false = Ok vm
    ∧ (∀ k, set_order env keys !! 0 = Some k → vm !! k = Some host_voice)
    ∧ (∀ k, set_order env keys !! 1 = Some k → vm !! k = Some guest_voice)
    ∧ (∀ i k, 2 ≤ i → set_order env keys !! i = Some k →
         vm !! k = Some (if Nat.even i then host_voice else guest_voice)).
Proof.
  intros Hok Hkeys _. destruct (Hok keys) as [Hnd _].
  eexists. split; [by apply voice_assignment_Ok|]. split_and!.
  - intros k Hk. by rewrite (build_voice_mapping_dialogue _ _ _ 0).
  - intros k Hk. by rewrite (build_voice_mapping_dialogue _ _ _ 1).
  - intros i k _ Hk. by rewrite (build_voice_mapping_dialogue _ _ _ i).
Qed.

Lemma dialogue_extra_speakers_witness :
  ∃ vm : gmap key str,
    voice_assignment (demo_env [] (Raise JSONDecodeError)) demo_panel
      (lit "Patient_Man") (lit "Wise_Woman") false = Ok vm
    ∧ vm !! KStr (lit "Bella") = Some (lit "Patient_Man")
    ∧ vm !! KStr (lit "Carl") = Some (lit "Wise_Woman")
    ∧ vm !! KStr (lit "Adam") = Some (lit "Patient_Man")
    ∧ vm !! KStr (lit "Dora") = Some (lit "Wise_Woman").
Proof.
  destruct (dialogue_extra_speakers (demo_env [] (Raise JSONDecodeError)) demo_panel
              (lit "Patient_Man") (lit "Wise_Woman")
              (KStr ∘ lit <$> ["Adam"; "Bella"; "Carl"; "Adam"; "Dora"]%string))
    as (vm & Hvm & H0 & H1 & Hi).
  - apply demo_env_set_order_ok.
  - reflexivity.
  - vm_compute. lia.
  - exists vm. split_and!.
    + done.
    + apply H0. vm_compute. reflexivity.
    + apply H1. vm_compute. reflexivity.
    + apply (Hi 2); [lia | vm_compute; reflexivity].
    + apply (Hi 3); [lia | vm_compute; reflexivity].
Defined.

(** ** Runs of the synthesis loops *)

(** [dispatched env vm h entries tasks evs]: from history [h], one request per
    entry was accepted, in order; [tasks] are the handles and [evs] the calls. *)
Inductive dispatched (env : Env) (vm : gmap key str) :
    list event → list DialogueEntry → list nat → list event → Prop :=
  | dispatched_nil h : dispatched env vm h [] [] []
  | dispatched_cons h entry rest voice task tasks evs :
      lookup_voice vm (speaker entry) = Ok voice →
      tts_start env h (synthesis_request (text entry) voice) = Ok task →
      dispatched env vm (h ++ [TtsStart (synthesis_request (text entry) voice)])
        rest tasks evs →
      dispatched env vm h (entry :: rest) (task :: tasks)
        (TtsStart (synthesis_request (text entry) voice) :: evs).

(** [collected env i h tasks evs]: from history [h], the tasks were awaited in
    order, and the audio of the [j]-th of them was fetched and written to the
    segment file of index [i + j]. *)
Inductive collected (env : Env) : nat → list event → list nat → list event → Prop :=
  | collected_nil i h : collected env i h [] []
  | collected_cons i h task rest url audio evs :
      tts_wait env h task = Ok url →
      requests_get env (h ++ [TtsWait task]) url = Ok audio →
      collected env (S i)
        (h ++ [TtsWait task; Get url; Write (segment_path i) audio]) rest evs →
      collected env i h (task :: rest)
        ([TtsWait task; Get url; Write (segment_path i) audio] ++ evs).

Lemma dispatch_loop_Ok env vm entries acc w tasks w' :
  dispatch_loop env vm entries acc w = (Ok tasks, w') →
  ∃ new evs,
    tasks = acc ++ new ∧ dispatched env vm (trace w) entries new evs
    ∧ trace w' = trace w ++ evs ∧ files w' = files w.
Proof.
  revert acc w. induction entries as [|entry rest IH]; intros acc w Hrun.
  - cbn in Hrun. injection Hrun as <- <-.
    exists [], []. rewrite !app_nil_r. split_and!; [done | constructor | done | done].
  - cbn [dispatch_loop] in Hrun. run_step.
    destruct (lookup_voice vm (speaker entry)) as [voice|] eqn:Hv; [|done].
    destruct (tts_start env (trace w) _) as [task|] eqn:Ht; [|done].
    apply IH in Hrun as (new & evs & -> & Hd & Htr & Hf). cbn in *.
    exists (task :: new), (TtsStart (synthesis_request (text entry) voice) :: evs).
    split_and!.
    + by rewrite <-app_assoc.
    + by econstructor.
    + by rewrite Htr, <-app_assoc.
    + done.
Qed.

(** The dispatch loop fails only when the synthesis service refuses a request,
    provided the mapping covers the speakers. *)
Lemma dispatch_loop_Raise env vm entries acc w e w' :
  (∀ entry, entry ∈ entries → ∃ voice, lookup_voice vm (speaker entry) = Ok voice) →
  dispatch_loop env vm entries acc w = (Raise e, w') →
  ∃ h request, tts_start env h request = Raise e.
Proof.
  revert acc w. induction entries as [|entry rest IH]; intros acc w Hcov Hrun.
  - done.
  - cbn [dispatch_loop] in Hrun. run_step.
    destruct (Hcov entry) as [voice Hv]; [left|]. rewrite Hv in Hrun.
    destruct (tts_start env (trace w) _) as [task|e'] eqn:Ht.
    + eapply IH; [|done]. intros; apply Hcov; by right.
    + injection Hrun as <- _. eauto.
Qed.

Lemma dispatch_loop_total env vm entries acc w :
  (∀ entry, entry ∈ entries → ∃ voice, lookup_voice vm (speaker entry) = Ok voice) →
  (∀ h request, ∃ task, tts_start env h request = Ok task) →
  ∃ tasks w', dispatch_loop env vm entries acc w = (Ok tasks, w').
Proof.
  intros Hcov Hstart.
  destruct (dispatch_loop env vm entries acc w) as [[tasks|e] w'] eqn:Hrun; [eauto|].
  destruct (dispatch_loop_Raise _ _ _ _ _ _ _ Hcov Hrun) as (h & r & Hr).
  destruct (Hstart h r) as [t Ht]. congruence.
Qed.

Lemma collect_loop_Ok env i tasks segments w out w' :
  collect_loop env i tasks segments w = (Ok out, w') →
  ∃ evs,
    out = segments ++ (segment_path <$> seq i (length tasks))
    ∧ collected env i (trace w) tasks evs
    ∧ trace w' = trace w ++ evs.
Proof.
  revert i segments w. induction tasks as [|task rest IH]; intros i segments w Hrun.
  - cbn in Hrun. injection Hrun as <- <-.
    exists []. rewrite !app_nil_r. split_and!; [done | constructor | done].
  - cbn [collect_loop] in Hrun. run_step.
    destruct (tts_wait env (trace w) task) as [url|] eqn:Hw; [|done].
    destruct (requests_get env _ url) as [audio|] eqn:Hg; [|done].
    apply IH in Hrun as (evs & -> & Hc & Htr). cbn [trace] in *.
    exists ([TtsWait task; Get url; Write (segment_path i) audio] ++ evs).
    split_and!.
    + by rewrite <-app_assoc.
    + econstructor; [done..|]. by rewrite <-!app_assoc in Hc.
    + rewrite Htr. by rewrite <-!app_assoc.
Qed.

Lemma collect_loop_total env i tasks segments w :
  (∀ h task, ∃ url, tts_wait env h task = Ok url) →
  (∀ h url, ∃ audio, requests_get env h url = Ok audio) →
  ∃ out w', collect_loop env i tasks segments w = (Ok out, w').
Proof.
  intros Hwait Hget. revert i segments w.
  induction tasks as [|task rest IH]; intros i segments w; [by eexists _, _|].
  cbn [collect_loop]. run_step.
  destruct (Hwait (trace w) task) as [url ->].
  destruct (Hget (trace w ++ [TtsWait task]) url) as [audio ->].
  apply IH.
Qed.

Lemma dispatched_length env vm h entries tasks evs :
  dispatched env vm h entries tasks evs →
  length tasks = length entries ∧ length evs = length entries.
Proof. induction 1; cbn; lia. Qed.

(** The requests of a dispatch carry the texts of the entries, in order. *)
Definition request_text (ev : event) : option json :=
  match ev with
  | TtsStart request => Some (req_text request)
  | _ => None
  end.

Definition awaited_task (ev : event) : option nat :=
  match ev with
  | TtsWait task => Some task
  | _ => None
  end.

Definition written_path (ev : event) : option str :=
  match ev with
  | Write path _ => Some path
  | _ => None
  end.

Lemma dispatched_texts env vm h entries tasks evs :
  dispatched env vm h entries tasks evs →
  omap request_text evs = text <$> entries
  ∧ omap awaited_task evs = [] ∧ omap written_path evs = [].
Proof.
  intros H. induction H as [h | h entry rest voice task tasks evs Hv Ht Hd IH];
    [done|].
  cbn. destruct IH as (-> & -> & ->). done.
Qed.

Lemma collected_order env i h tasks evs :
  collected env i h tasks evs →
  omap awaited_task evs = tasks
  ∧ omap written_path evs = segment_path <$> seq i (length tasks)
  ∧ omap request_text evs = [].
Proof.
  intros H. induction H as [i h | i h task rest url audio evs Hw Hg Hc IH];
    [done|].
  cbn. destruct IH as (-> & -> & ->). done.
Qed.

Lemma generate_audio_unhashable env conversation host_voice guest_voice monologue e w :
  speaker_keys conversation = Raise e →
  generate_audio env conversation host_voice guest_voice monologue w = (Raise e, w).
Proof.
  intros Hkeys. unfold generate_audio, voice_assignment. run_step. by rewrite Hkeys.
Qed.

(** C9: whatever the mode, the keys of the voice mapping are exactly the
    speakers of the script's lines, so the lookup of the voice of a line's
    speaker succeeds for every line, and the dispatch loop can only fail
    through the synthesis service.  The speakers of a script are hashable when
    they are strings; were one not, the run would end before any lookup. *)
Theorem voice_assignment_covers (env : Env) (conversation : Conversation)
    (host_voice guest_voice : str) (monologue : bool) :
  set_order_ok env →
  ((∀ entry, entry ∈ lines conversation → ∃ s, speaker entry = JStr s) →
   ∃ keys, speaker_keys conversation = Ok keys)
  ∧ (∀ keys, speaker_keys conversation = Ok keys →
     ∃ vm : gmap key str,
       voice_assignment env conversation host_voice guest_voice monologue = Ok vm
       ∧ dom vm = list_to_set keys
       ∧ (∀ k, k ∈ dom vm ↔
            ∃ entry, entry ∈ lines conversation ∧ key_of (speaker entry) = Ok k)
       ∧ (∀ entry, entry ∈ lines conversation →
            ∃ voice, lookup_voice vm (speaker entry) = Ok voice)
       ∧ (∀ w e w',
            dispatch_loop env vm (lines conversation) [] w = (Raise e, w') →
            ∃ h request, tts_start env h request = Raise e))
  ∧ (∀ e w, speaker_keys conversation = Raise e →
       generate_audio env conversation host_voice guest_voice monologue w
       = (Raise e, w)).
Proof.
  intros Hok. split_and!.
  - intros Hstr. apply res_map_total. intros entry He.
    destruct (Hstr entry He) as [s ->]. by eexists.
  - intros keys Hkeys. destruct (Hok keys) as [_ Hel].
    set (vm := build_voice_mapping monologue host_voice guest_voice
                 (set_order env keys)).
    assert (dom vm = list_to_set keys) as Hdom.
    { unfold vm. rewrite build_voice_mapping_dom. apply set_eq. intros k.
      by rewrite !elem_of_list_to_set. }
    assert (∀ entry, entry ∈ lines conversation →
              ∃ voice, lookup_voice vm (speaker entry) = Ok voice) as Hcov.
    { intros entry He.
      destruct (speaker_keys_elem _ _ _ Hkeys He) as (k & Hk & Hin).
      assert (k ∈ dom vm) as [voice Hv]%elem_of_dom
        by (rewrite Hdom; by apply elem_of_list_to_set).
      exists voice. by apply (lookup_voice_Some _ _ k). }
    exists vm. split_and!; [by apply voice_assignment_Ok | done | | done |].
    + intros k. rewrite Hdom, elem_of_list_to_set. split.
      * by apply speaker_keys_elem_inv.
      * intros (entry & He & Hk).
        destruct (speaker_keys_elem _ _ _ Hkeys He) as (k' & Hk' & Hin). congruence.
    + intros w e w'. by apply dispatch_loop_Raise.
  - intros e w Hkeys. by apply generate_audio_unhashable.
Qed.

Lemma voice_assignment_covers_witness :
  ∃ vm : gmap key str,
    voice_assignment (demo_env [] (Raise JSONDecodeError)) demo_panel
      (lit "Patient_Man") (lit "Wise_Woman") false = Ok vm
    ∧ dom vm = list_to_set (KStr ∘ lit <$> ["Adam"; "Bella"; "Carl"; "Dora"]%string)
    ∧ ∀ entry, entry ∈ lines demo_panel →
        ∃ voice, lookup_voice vm (speaker entry) = Ok voice.
Proof.
  destruct (voice_assignment_covers (demo_env [] (Raise JSONDecodeError)) demo_panel
              (lit "Patient_Man") (lit "Wise_Woman") false
              (demo_env_set_order_ok _ _))
    as ([keys Hkeys] & Hcover & _).
  - intros entry Hin. cbn in Hin.
    repeat (apply elem_of_cons in Hin as [-> | Hin]; [by eexists|]).
    by apply elem_of_nil in Hin.
  - destruct (Hcover keys Hkeys) as (vm & Hvm & Hdom & _ & Hcov & _).
    exists vm. split_and!; [done | | done].
    rewrite Hdom. vm_compute in Hkeys. injection Hkeys as <-. cbn. set_solver.
Defined.

(** ** Order of the audio segments *)

(** The concatenation manifest for [n] segments. *)
Definition manifest_of (n : nat) : str :=
  concat ((λ i, concat [ lit "file '"; segment_path i; lit "'"; nl ]) <$> seq 0 n).

Lemma absolute_segment_path env i : absolute env (segment_path i) = segment_path i.
Proof. reflexivity. Qed.

Lemma manifest_segments env i n :
  concat (manifest_line env <$> (segment_path <$> seq i n))
  = concat ((λ i, concat [ lit "file '"; segment_path i; lit "'"; nl ]) <$> seq i n).
Proof.
  by rewrite <-list_fmap_compose.
Qed.

Definition combining_events (n : nat) : list event :=
  [ Print (lit "TTS completed, combining audio files");
    Write (lit "/tmp/file_list.txt") (manifest_of n);
    Run (ffmpeg_cmd (lit "/tmp/file_list.txt") (lit "podcast.mp3")) ].

Lemma generate_audio_Ok env conversation host_voice guest_voice monologue w path w' :
  generate_audio env conversation host_voice guest_voice monologue w = (Ok path, w') →
  ∃ vm tasks starts fetches,
    voice_assignment env conversation host_voice guest_voice monologue = Ok vm
    ∧ dispatched env vm (trace w) (lines conversation) tasks starts
    ∧ collected env 0 (trace w ++ starts) tasks fetches
    ∧ trace w' = trace w ++ starts ++ fetches
                 ++ combining_events (length (lines conversation))
    ∧ path = lit "podcast.mp3".
Proof.
  unfold generate_audio. intros Hrun. run_step.
  destruct (voice_assignment env conversation host_voice guest_voice monologue)
    as [vm|] eqn:Hvm; [|done].
  destruct (dispatch_loop env vm (lines conversation) [] w) as [[tasks|] w1] eqn:Hd;
    [|done].
  apply dispatch_loop_Ok in Hd as (new & starts & -> & Hd & Htr1 & Hf1).
  cbn [app] in Hrun.
  destruct (collect_loop env 0 new [] w1) as [[segments|] w2] eqn:Hc; [|done].
  apply collect_loop_Ok in Hc as (fetches & -> & Hc & Htr2).
  unfold combine_audio_files in Hrun. run_step.
  destruct (subprocess_run env _ _ _) as [files'|] eqn:Hs; [|done].
  injection Hrun as <- <-. cbn [trace].
  destruct (dispatched_length _ _ _ _ _ _ Hd) as [Hlen _].
  exists vm, new, starts, fetches. rewrite Htr1 in Hc.
  split_and!; [done..| |done].
  rewrite Htr2, Htr1. cbn [app]. rewrite manifest_segments, Hlen.
  unfold combining_events, manifest_of. by rewrite <-!app_assoc.
Qed.

Lemma generate_audio_total env conversation host_voice guest_voice monologue w keys :
  set_order_ok env →
  speaker_keys conversation = Ok keys →
  (∀ h request, ∃ task, tts_start env h request = Ok task) →
  (∀ h task, ∃ url, tts_wait env h task = Ok url) →
  (∀ h url, ∃ audio, requests_get env h url = Ok audio) →
  (∀ h fs cmd, ∃ fs', subprocess_run env h fs cmd = Ok fs') →
  ∃ w', generate_audio env conversation host_voice guest_voice monologue w
        = (Ok (lit "podcast.mp3"), w').
Proof.
  intros Hok Hkeys Hstart Hwait Hget Hrun.
  set (vm := build_voice_mapping monologue host_voice guest_voice (set_order env keys)).
  assert (∀ entry, entry ∈ lines conversation →
            ∃ voice, lookup_voice vm (speaker entry) = Ok voice) as Hcov.
  { destruct (Hok keys) as [_ Hel]. intros entry He.
    destruct (speaker_keys_elem _ _ _ Hkeys He) as (k & Hk & Hin).
    assert (k ∈ dom vm) as [voice Hv]%elem_of_dom.
    { unfold vm. rewrite build_voice_mapping_dom, elem_of_list_to_set. by apply Hel. }
    exists voice. by apply (lookup_voice_Some _ _ k). }
  unfold generate_audio. run_step.
  rewrite (voice_assignment_Ok _ _ _ _ _ keys Hkeys). fold vm.
  destruct (dispatch_loop_total env vm (lines conversation) [] w Hcov Hstart)
    as (tasks & w1 & ->).
  destruct (collect_loop_total env 0 tasks [] w1 Hwait Hget) as (segments & w2 & ->).
  unfold combine_audio_files. run_step.
  destruct (Hrun (trace w2 ++ [Print (lit "TTS completed, combining audio files")]
                    ++ [Write (lit "/tmp/file_list.txt")
                          (concat (manifest_line env <$> segments))])
              (<[lit "/tmp/file_list.txt" := concat (manifest_line env <$> segments)]>
                 (files w2))
              (ffmpeg_cmd (lit "/tmp/file_list.txt") (lit "podcast.mp3")))
    as [fs' Hfs].
  rewrite <-app_assoc. rewrite Hfs. by eexists.
Qed.

(** C4: a run of [generate_audio] on a script of [N] lines dispatches one
    synthesis request per line, in script order and before it awaits any; it
    then awaits the requests in dispatch order, saving the audio of the
    [i]-th one to the segment file of index [i] for [i = 0 .. N-1]; and the
    manifest given to the concatenation utility lists the absolute paths of
    the segment files in that same order.  Such a run exists whenever the
    speakers are hashable and the collaborators answer. *)
Theorem segment_order (env : Env) (conversation : Conversation)
    (host_voice guest_voice : str) (monologue : bool) (w : World) :
  let N := length (lines conversation) in
  (set_order_ok env →
   (∃ keys, speaker_keys conversation = Ok keys) →
   (∀ h request, ∃ task, tts_start env h request = Ok task) →
   (∀ h task, ∃ url, tts_wait env h task = Ok url) →
   (∀ h url, ∃ audio, requests_get env h url = Ok audio) →
   (∀ h fs cmd, ∃ fs', subprocess_run env h fs cmd = Ok fs') →
   ∃ w', generate_audio env conversation host_voice guest_voice monologue w
         = (Ok (lit "podcast.mp3"), w'))
  ∧ ∀ path w',
      generate_audio env conversation host_voice guest_voice monologue w
      = (Ok path, w') →
      ∃ vm tasks starts fetches,
        voice_assignment env conversation host_voice guest_voice monologue = Ok vm
        ∧ dispatched env vm (trace w) (lines conversation) tasks starts
        ∧ collected env 0 (trace w ++ starts) tasks fetches
        ∧ trace w' = trace w ++ starts ++ fetches ++ combining_events N
        ∧ length tasks = N
        ∧ omap request_text (starts ++ fetches ++ combining_events N)
          = text <$> lines conversation
        ∧ omap awaited_task (starts ++ fetches ++ combining_events N) = tasks
        ∧ omap written_path (starts ++ fetches ++ combining_events N)
          = (segment_path <$> seq 0 N) ++ [lit "/tmp/file_list.txt"]
        ∧ manifest_of N
          = concat ((λ i, lit "file '" ++ lit "/tmp/audio-" ++ str_of_Z (Z.of_nat i)
                          ++ lit ".mp3" ++ lit "'" ++ nl) <$> seq 0 N).
Proof.
  intros N. split.
  - intros Hok [keys Hkeys] Hstart Hwait Hget Hrun.
    by apply (generate_audio_total _ _ _ _ _ _ keys).
  - intros path w' Hrun.
    apply generate_audio_Ok in Hrun as (vm & tasks & starts & fetches & Hvm & Hd & Hc & Htr & ->).
    destruct (dispatched_length _ _ _ _ _ _ Hd) as [Hlen _].
    destruct (dispatched_texts _ _ _ _ _ _ Hd) as (Hd1 & Hd2 & Hd3).
    destruct (collected_order _ _ _ _ _ Hc) as (Hc1 & Hc2 & Hc3).
    exists vm, tasks, starts, fetches.
    split_and!; [done..| | | |].
    + rewrite !omap_app, Hd1, Hc3. cbn. by rewrite !app_nil_r.
    + rewrite !omap_app, Hd2, Hc1. cbn. by rewrite app_nil_r.
    + rewrite !omap_app, Hd3, Hc2, Hlen. done.
    + unfold manifest_of. f_equal. apply list_fmap_ext. intros _ i _.
      unfold segment_path. cbn [concat]. by rewrite !app_nil_r, <-!app_assoc.
Qed.

Definition empty_world : World := {| files := ∅; trace := [] |}.

Lemma segment_order_witness :
  ∃ w' tasks,
    generate_audio (demo_env [] (Raise JSONDecodeError)) demo_dialogue
      (lit "Patient_Man") (lit "Wise_Woman") false empty_world
    = (Ok (lit "podcast.mp3"), w')
    ∧ omap request_text (trace w')
      = [JStr (lit "Hello."); JStr (lit "Hi."); JStr (lit "Bye.")]
    ∧ omap awaited_task (trace w') = tasks
    ∧ length tasks = 3
    ∧ omap written_path (trace w')
      = [lit "/tmp/audio-0.mp3"; lit "/tmp/audio-1.mp3"; lit "/tmp/audio-2.mp3";
         lit "/tmp/file_list.txt"].
Proof.
  pose proof (segment_order (demo_env [] (Raise JSONDecodeError)) demo_dialogue
                (lit "Patient_Man") (lit "Wise_Woman") false empty_world)
    as [Htotal Horder].
  destruct Htotal as [w' Hrun].
  - apply demo_env_set_order_ok.
  - by eexists.
  - intros h request. by eexists.
  - intros h task. by eexists.
  - intros h url. by eexists.
  - intros h fs cmd. by eexists.
  - destruct (Horder _ _ Hrun)
      as (vm & tasks & starts & fetches & _ & _ & _ & Htr & Hlen & Ht & Ha & Hp & _).
    exists w', tasks. cbn [trace empty_world app] in Htr. rewrite Htr.
    split_and!; [done | exact Ht | exact Ha | exact Hlen | exact Hp].
Defined.

(** ** Runs of the ingestor *)

Definition banner (total i : nat) (pdf_path : Path) : event :=
  Print (concat [ lit "Processing PDF "; str_of_Z (Z.of_nat i + 1); lit "/";
                  str_of_Z (Z.of_nat total); lit ": "; path_name pdf_path ]).

Definition role_at (i : nat) : str :=
  if decide (i = 0) then lit "main" else lit "context".

(** [ingested env total i h pdfs docs evs]: from history [h], the documents
    [pdfs], the first of which has index [i], were extracted, fetched through
    the scratch file and read back, giving [docs]. *)
Inductive ingested (env : Env) (total : nat) :
    nat → list event → list Path → list PDFMetadata → list event → Prop :=
  | ingested_nil i h : ingested env total i h [] [] []
  | ingested_cons i h pdf_path rest url body markdown_text docs evs :
      pdf_extractor env (h ++ [banner total i pdf_path]) pdf_path = Ok url →
      requests_get env (h ++ [banner total i pdf_path; Extract pdf_path]) url
      = Ok body →
      decode_text env body = Ok markdown_text →
      ingested env total (S i)
        (h ++ [banner total i pdf_path; Extract pdf_path; Get url;
               Write (lit "/tmp/result.md") body]) rest docs evs →
      ingested env total i h (pdf_path :: rest)
        ({| filename := path_name pdf_path; markdown := markdown_text;
            type := role_at i |} :: docs)
        ([banner total i pdf_path; Extract pdf_path; Get url;
          Write (lit "/tmp/result.md") body] ++ evs).







Lemma read_text_written env path content fs h :
  read_text env path {| files := <[path := content]> fs; trace := h |}
  = (decode_text env content, {| files := <[path := content]> fs; trace := h |}).
Proof. unfold read_text. cbn. by rewrite lookup_insert_eq. Qed.

Lemma process_pdfs_loop_Ok env total i pdfs results w out w' :
  process_pdfs_loop env total i pdfs results w = (Ok out, w') →
  ∃ docs evs,
    out = results ++ docs ∧ ingested env total i (trace w) pdfs docs evs
    ∧ trace w' = trace w ++ evs.
Proof.
  revert i results w. induction pdfs as [|pdf_path rest IH]; intros i results w Hrun.
  - cbn in Hrun. injection Hrun as <- <-. exists [], [].
    rewrite !app_nil_r. split_and!; [done | constructor | done].
  - cbn [process_pdfs_loop] in Hrun. run_step. fold (banner total i pdf_path) in Hrun.
    destruct (pdf_extractor env _ pdf_path) as [url|] eqn:Hx; [|done].
    destruct (requests_get env _ url) as [body|] eqn:Hg; [|done].
    rewrite read_text_written in Hrun.
    destruct (decode_text env body) as [markdown_text|] eqn:Hdec; [|done].
    apply IH in Hrun as (docs & evs & -> & Hing & Htr). cbn [trace] in *.
    rewrite <-?app_assoc in Hg. rewrite <-?app_assoc in Hing.
    rewrite <-?app_assoc in Htr. cbn [app] in *.
    eexists (_ :: docs), (_ ++ evs). split_and!.
    + by rewrite <-app_assoc.
    + by econstructor.
    + by rewrite Htr.
Qed.


Lemma process_pdfs_loop_total env total i pdfs results w :
  (∀ h doc, ∃ url, pdf_extractor env h doc = Ok url) →
  (∀ h url, ∃ body, requests_get env h url = Ok body) →
  (∀ body, ∃ markdown_text, decode_text env body = Ok markdown_text) →
  ∃ out w', process_pdfs_loop env total i pdfs results w = (Ok out, w').
Proof.
  intros Hx Hg Hdec. revert i results w.
  induction pdfs as [|pdf_path rest IH]; intros i results w; [by eexists _, _|].
  cbn [process_pdfs_loop]. run_step.
  match goal with |- context [pdf_extractor env ?h pdf_path] =>
    destruct (Hx h pdf_path) as [url ->] end.
  match goal with |- context [requests_get env ?h url] =>
    destruct (Hg h url) as [body ->] end.
  rewrite read_text_written. destruct (Hdec body) as [markdown_text ->].
  apply IH.
Qed.

Lemma ingested_shape env total i h pdfs docs evs :
  ingested env total i h pdfs docs evs →
  length docs = length pdfs
  ∧ filename <$> docs = path_name <$> pdfs
  ∧ ∀ j doc, docs !! j = Some doc → type doc = role_at (i + j).
Proof.
  intros H.
  induction H as [i h | i h pdf_path rest url body md docs evs Hx Hg Hdec Hing IH].
  - split_and!; [done | done | intros j doc Hj; done].
  - destruct IH as (Hlen & Hnames & Hroles). split_and!.
    + cbn. by rewrite Hlen.
    + cbn. by rewrite Hnames.
    + intros [|j] doc Hj; simplify_eq/=.
      * by rewrite Nat.add_0_r.
      * rewrite (Hroles j doc Hj). f_equal. lia.
Qed.

(** C3: on [N] document paths the ingestor returns exactly [N] entries, in the
    order of the input (the [j]-th entry carries the name of the [j]-th
    path), the first tagged "main" and every other one "context".  It
    returns whenever extraction, download and decoding succeed. *)
Theorem process_pdfs_entries (env : Env) (pdfs : list Path) (w : World) :
  ((∀ h doc, ∃ url, pdf_extractor env h doc = Ok url) →
   (∀ h url, ∃ body, requests_get env h url = Ok body) →
   (∀ body, ∃ markdown_text, decode_text env body = Ok markdown_text) →
   ∃ docs w', process_pdfs env pdfs w = (Ok docs, w'))
  ∧ ∀ docs w',
      process_pdfs env pdfs w = (Ok docs, w') →
      length docs = length pdfs
      ∧ filename <$> docs = path_name <$> pdfs
      ∧ (∀ j doc, docs !! j = Some doc →
           type doc = if decide (j = 0) then lit "main" else lit "context")
      ∧ ∃ evs, ingested env (length pdfs) 0 (trace w) pdfs docs evs
               ∧ trace w' = trace w ++ evs.
Proof.
  split.
  - intros Hx Hg Hdec. by apply process_pdfs_loop_total.
  - intros docs w' Hrun. unfold process_pdfs in Hrun.
    apply process_pdfs_loop_Ok in Hrun as (new & evs & -> & Hing & Htr).
    destruct (ingested_shape _ _ _ _ _ _ _ Hing) as (Hlen & Hnames & Hroles).
    cbn [app]. split_and!; [done | done | | by eauto].
    intros j doc Hj. by rewrite (Hroles j doc Hj).
Qed.

Definition demo_pdfs : list Path :=
  [ {| path_str := lit "/in/paper.pdf"; path_name := lit "paper.pdf" |};
    {| path_str := lit "/in/notes.pdf"; path_name := lit "notes.pdf" |};
    {| path_str := lit "/in/slides.pdf"; path_name := lit "slides.pdf" |} ].

Lemma process_pdfs_entries_witness :
  ∃ docs w',
    process_pdfs (demo_env [] (Raise JSONDecodeError)) demo_pdfs empty_world
    = (Ok docs, w')
    ∧ length docs = 3
    ∧ filename <$> docs = [lit "paper.pdf"; lit "notes.pdf"; lit "slides.pdf"]
    ∧ type <$> docs = [lit "main"; lit "context"; lit "context"].
Proof.
  pose proof (process_pdfs_entries (demo_env [] (Raise JSONDecodeError)) demo_pdfs
                empty_world) as [Htotal Hshape].
  destruct Htotal as (docs & w' & Hrun).
  - intros h doc. by eexists.
  - intros h url. by eexists.
  - intros body. by eexists.
  - destruct (Hshape _ _ Hrun) as (Hlen & Hnames & Hroles & _).
    exists docs, w'. split_and!; [done..|].
    destruct docs as [|d0 [|d1 [|d2 [|d3 docs]]]]; try discriminate Hlen.
    cbn. by rewrite (Hroles 0 d0), (Hroles 1 d1), (Hroles 2 d2).
Defined.

(** ** Failure of the decoding stage *)








(** * Further properties of the pipeline *)

(** ** The payload the parser returns *)

(** [sep] occurs in [s]. *)
Lemma find_is_Some (sep s : str) :
  is_Some (find sep s) ↔ ∃ a b, s = a ++ sep ++ b.
Proof.
  split.
  - intros [i Hi]. exists (take i s), (drop (i + length sep) s). by apply find_split.
  - intros (a & b & ->).
    destruct (find sep (a ++ sep ++ b)) as [i|] eqn:E; [by eexists|].
    rewrite find_None in E. specialize (E (length a)).
    by rewrite drop_app_length, startswith_app in E.
Qed.

(** A string without [sep] has no piece with [sep]. *)
Lemma find_None_infix (sep s a b : str) :
  find sep (a ++ s ++ b) = None → find sep s = None.
Proof.
  intros Hnone. apply eq_None_not_Some. intros (u & v & ->)%find_is_Some.
  assert (is_Some (find sep (a ++ (u ++ sep ++ v) ++ b))) as [? ?]; [|congruence].
  apply find_is_Some. exists (a ++ u), (v ++ b). by rewrite <-!app_assoc.
Qed.

Lemma lstrip_suffix (s : str) : lstrip s `suffix_of` s.
Proof.
  induction s as [|c s IH]; [done|]. cbn.
  destruct (isspace c); [by apply suffix_cons_r | done].
Qed.

Lemma lstrip_head (s : str) (c : N) : list.head (lstrip s) = Some c → isspace c = false.
Proof.
  induction s as [|d s IH]; [done|]. cbn.
  destruct (isspace d) eqn:Hd; [done|]. cbn. by intros [= <-].
Qed.

Lemma rstrip_prefix (s : str) : rstrip s `prefix_of` s.
Proof.
  unfold rstrip. apply prefix_suffix_reverse. rewrite reverse_involutive.
  apply lstrip_suffix.
Qed.

Lemma rstrip_last (s : str) (c : N) : list.last (rstrip s) = Some c → isspace c = false.
Proof. unfold rstrip. rewrite last_reverse. apply lstrip_head. Qed.

Lemma strip_infix (s : str) : ∃ a b, s = a ++ strip s ++ b.
Proof.
  unfold strip. destruct (rstrip_prefix (lstrip s)) as [b Hb].
  destruct (lstrip_suffix s) as [a Ha].
  exists a, b. by rewrite <-Hb.
Qed.

Lemma strip_head (s : str) (c : N) : list.head (strip s) = Some c → isspace c = false.
Proof.
  unfold strip. intros Hc. destruct (rstrip_prefix (lstrip s)) as [b Hb].
  apply (lstrip_head s). rewrite Hb.
  destruct (rstrip (lstrip s)); [done|]. done.
Qed.

Lemma strip_last (s : str) (c : N) : list.last (strip s) = Some c → isspace c = false.
Proof. apply rstrip_last. Qed.

Lemma strip_no_sep (sep s : str) : find sep s = None → find sep (strip s) = None.
Proof.
  intros Hnone. destruct (strip_infix s) as (a & b & Hs).
  rewrite Hs in Hnone. by eapply find_None_infix.
Qed.

(** Stripping what is already stripped changes nothing. *)
Lemma lstrip_id (s : str) :
  (∀ c, list.head s = Some c → isspace c = false) → lstrip s = s.
Proof. destruct s as [|c s]; [done|]. intros H. cbn. by rewrite (H c). Qed.

Lemma strip_idemp (s : str) : strip (strip s) = strip s.
Proof.
  assert (∀ t, (∀ c, list.head t = Some c → isspace c = false) →
               (∀ c, list.last t = Some c → isspace c = false) → strip t = t) as Hid.
  { intros t Hh Hl. unfold strip. rewrite lstrip_id by done.
    unfold rstrip. rewrite lstrip_id; [apply reverse_involutive|].
    intros c. rewrite head_reverse. apply Hl. }
  apply Hid; [apply strip_head | apply strip_last].
Qed.

(** The payload cut out of a reply that holds a marker. *)
Lemma extract_json_fenced_payload (content payload : str) :
  contains fence content = true →
  extract_json content = Ok payload →
  ∃ body, payload = strip body ∧ find fence body = None.
Proof.
  intros Hc Hrun. rewrite extract_json_eq in Hrun.
  destruct (find fence_json content) as [i|] eqn:Ei.
  - injection Hrun as <-. eexists. split; [done|]. apply upto_no_sep, fence_nonempty.
  - apply contains_true in Hc as [j Hj]. rewrite Hj in Hrun.
    injection Hrun as <-. eexists. split; [done|]. apply upto_no_sep, fence_nonempty.
Qed.

(** X1: the payload of any reply is a fixed point of the parser: parsing it
    again gives it back unchanged. *)
Theorem extract_json_idempotent (content payload : str) :
  extract_json content = Ok payload → extract_json payload = Ok payload.
Proof.
  intros Hrun. destruct (contains fence content) eqn:Hc.
  - destruct (extract_json_fenced_payload _ _ Hc Hrun) as (body & -> & Hnone).
    apply extract_json_no_fence, contains_false. by apply strip_no_sep.
  - rewrite extract_json_no_fence in Hrun by done. injection Hrun as <-.
    by apply extract_json_no_fence.
Qed.

Lemma extract_json_idempotent_witness :
  extract_json (lit "{}") = Ok (lit "{}").
Proof.
  apply (extract_json_idempotent (lit "Sure: ```json {} ``` done")).
  vm_compute. reflexivity.
Defined.

(** X2: when the reply holds a fence marker, the payload holds none, and it
    neither starts nor ends with a whitespace character. *)
Theorem extract_json_payload_clean (content payload : str) :
  contains fence content = true →
  extract_json content = Ok payload →
  contains fence payload = false
  ∧ (∀ c, list.head payload = Some c → isspace c = false)
  ∧ (∀ c, list.last payload = Some c → isspace c = false)
  ∧ strip payload = payload.
Proof.
  intros Hc Hrun.
  destruct (extract_json_fenced_payload _ _ Hc Hrun) as (body & -> & Hnone).
  split_and!.
  - apply contains_false. by apply strip_no_sep.
  - apply strip_head.
  - apply strip_last.
  - apply strip_idemp.
Qed.

Lemma extract_json_payload_clean_witness :
  contains fence (lit "{}") = false ∧ strip (lit "{}") = lit "{}".
Proof.
  destruct (extract_json_payload_clean (lit "Sure: ```json {} ``` done") (lit "{}"))
    as (H1 & _ & _ & H2); [vm_compute; reflexivity..|].
  by split.
Defined.

(** X3: a reply cut short after its opening marker (no closing marker
    follows) still yields a payload: everything after the opening marker,
    stripped. *)
Theorem extract_json_unclosed (content : str) (i : nat) :
  (find fence_json content = Some i →
   find fence (drop (i + 7) content) = None →
   extract_json content = Ok (strip (drop (i + 7) content)))
  ∧ (find fence_json content = None →
     find fence content = Some i →
     find fence (drop (i + 3) content) = None →
     extract_json content = Ok (strip (drop (i + 3) content))).
Proof.
  split.
  - intros Hi Hrest. rewrite extract_json_eq, Hi. unfold upto at 2.
    destruct (find fence_json (drop (i + 7) content)) as [k|] eqn:Ek.
    + destruct (find_fence_json_fence _ _ Ek) as (j & Hj & _). congruence.
    + unfold upto. by rewrite Hrest.
  - intros Hnone Hi Hrest. rewrite extract_json_eq, Hnone, Hi.
    unfold upto. by rewrite Hrest.
Qed.

Lemma extract_json_unclosed_witness :
  extract_json (lit "Here: ```json {" ++ dq ++ lit "title" ++ dq ++ lit ": ")
  = Ok (lit "{" ++ dq ++ lit "title" ++ dq ++ lit ":")
  ∧ extract_json (lit "Here: ``` [1, 2 ") = Ok (lit "[1, 2").
Proof.
  split.
  - pose proof (proj1 (extract_json_unclosed
        (lit "Here: ```json {" ++ dq ++ lit "title" ++ dq ++ lit ": ") 6)) as H.
    rewrite H by (vm_compute; reflexivity). vm_compute. reflexivity.
  - pose proof (proj2 (extract_json_unclosed (lit "Here: ``` [1, 2 ") 6)) as H.
    rewrite H by (vm_compute; reflexivity). vm_compute. reflexivity.
Defined.

(** ** The context handed to the summarization prompt *)

Lemma truncation_marker_length : length truncation_marker = 28.
Proof. reflexivity. Qed.

(** X4: the context never exceeds 24000 characters plus the 28 of the
    marker; truncation leaves its first 24000 characters as they were; with no
    document the context is empty. *)
Theorem all_pdf_text_bounded (pdf_metadata : list PDFMetadata) :
  (Z.of_nat (length (all_pdf_text pdf_metadata)) ≤ 24000 + 28)%Z
  ∧ take (Z.to_nat 24000) (all_pdf_text pdf_metadata)
    = take (Z.to_nat 24000) (joined_pdf_text pdf_metadata)
  ∧ (pdf_metadata = [] → all_pdf_text pdf_metadata = []).
Proof.
  unfold all_pdf_text, max_context_length. split_and!.
  - destruct (Nat.ltb_spec (Z.to_nat 24000) (length (joined_pdf_text pdf_metadata))).
    + rewrite length_app, length_take, truncation_marker_length. lia.
    + lia.
  - destruct (Nat.ltb_spec (Z.to_nat 24000) (length (joined_pdf_text pdf_metadata)));
      [|done].
    rewrite take_app_le by (rewrite length_take; lia).
    rewrite take_take. f_equal; lia.
  - by intros ->.
Qed.

(** X5: the role tag of a document plays no part in the prompts, nor does
    its text beyond the first 5000 characters: documents with the same names
    and the same first 5000 characters give the same context and the same run
    of the planner. *)
Theorem planner_ignores_role (env : Env) (docs1 docs2 : list PDFMetadata)
    (host_name guest_name : str) (duration_minutes : Z) (podcast_topic : str)
    (monologue : bool) :
  filename <$> docs1 = filename <$> docs2 →
  (λ pdf, take (Z.to_nat 5000) (markdown pdf)) <$> docs1
  = (λ pdf, take (Z.to_nat 5000) (markdown pdf)) <$> docs2 →
  all_pdf_text docs1 = all_pdf_text docs2
  ∧ generate_podcast_content env docs1 host_name guest_name duration_minutes
      podcast_topic monologue
    = generate_podcast_content env docs2 host_name guest_name duration_minutes
        podcast_topic monologue.
Proof.
  intros Hnames Htexts.
  assert (pdf_section <$> docs1 = pdf_section <$> docs2) as Hsec.
  { revert docs2 Hnames Htexts. induction docs1 as [|d1 docs1 IH];
      intros [|d2 docs2] Hn Ht; try done.
    cbn in *. injection Hn as Hn1 Hn. injection Ht as Ht1 Ht.
    f_equal; [|by apply IH]. unfold pdf_section. by rewrite Hn1, Ht1. }
  assert (all_pdf_text docs1 = all_pdf_text docs2) as Hctx.
  { unfold all_pdf_text. by rewrite !joined_pdf_text_concat, Hsec. }
  split; [done|]. unfold generate_podcast_content. by rewrite Hctx.
Qed.

Lemma planner_ignores_role_witness :
  all_pdf_text [ {| filename := lit "a.pdf"; markdown := lit "text";
                    type := lit "main" |} ]
  = all_pdf_text [ {| filename := lit "a.pdf"; markdown := lit "text";
                      type := lit "context" |} ].
Proof.
  apply (planner_ignores_role (demo_env [] (Raise JSONDecodeError)) _ _ [] [] 5 []
           false); reflexivity.
Defined.

(** ** Generation calls of the planner *)

Definition llm_prompt (ev : event) : option str :=
  match ev with
  | Llm prompt => Some prompt
  | _ => None
  end.

(** The events of a planner run that received three replies. *)
Definition planning_events (p1 summary_text p2 outline p3 reply : str) : list event :=
  [ Llm p1; Print (lit "<<< PDF summary >>>"); Print summary_text;
    Llm p2; Print (lit "<<< Podcast outline >>>"); Print outline;
    Llm p3; Print (lit "<<< Podcast content >>>"); Print reply ].

Lemma generate_podcast_content_Ok env pdf_metadata host_name guest_name
    duration_minutes podcast_topic monologue w conversation w' :
  generate_podcast_content env pdf_metadata host_name guest_name duration_minutes
    podcast_topic monologue w = (Ok conversation, w') →
  ∃ summary_text outline reply,
    let p1 := summary_prompt (all_pdf_text pdf_metadata) in
    let p2 := outline_prompt summary_text host_name guest_name duration_minutes
                podcast_topic monologue in
    let p3 := if monologue
              then monologue_prompt outline summary_text host_name duration_minutes
              else dialogue_prompt outline summary_text host_name guest_name
                     duration_minutes in
    llm env (trace w) p1 = Ok summary_text
    ∧ llm env (trace w ++ take 3 (planning_events p1 summary_text p2 outline p3 reply))
        p2 = Ok outline
    ∧ llm env (trace w ++ take 6 (planning_events p1 summary_text p2 outline p3 reply))
        p3 = Ok reply
    ∧ parse_conversation env reply = Ok conversation
    ∧ trace w' = trace w ++ planning_events p1 summary_text p2 outline p3 reply
    ∧ files w' = files w.
Proof.
  unfold generate_podcast_content. intros Hrun. run_step.
  destruct (llm env (trace w) _) as [summary_text|] eqn:H1; [|done].
  match type of Hrun with context [llm env ?h ?p] =>
    destruct (llm env h p) as [outline|] eqn:H2; [|done] end.
  match type of Hrun with context [llm env ?h ?p] =>
    destruct (llm env h p) as [reply|] eqn:H3; [|done] end.
  destruct (parse_conversation env reply) as [c|] eqn:Hp; [|done].
  injection Hrun as <- <-. cbn [trace files].
  rewrite <-?app_assoc in H2. rewrite <-?app_assoc in H3. cbn [app] in H2, H3.
  exists summary_text, outline, reply. cbn zeta.
  split_and!; [done | exact H2 | exact H3 | done | | done].
  by rewrite <-!app_assoc.
Qed.

(** X6: a planner run that returns a conversation has called the generation
    service exactly three times, each call on the history left by what came
    before it: with the summary prompt; then with the outline prompt built
    from the reply to the first call; then with the script prompt (monologue
    or dialogue variant by the flag) built from the reply to the second call
    and the reply to the first.  Each reply is printed under its banner, the
    conversation is the parse of the reply to the third call, and no file
    was touched. *)
Theorem planner_three_calls (env : Env) (pdf_metadata : list PDFMetadata)
    (host_name guest_name : str) (duration_minutes : Z) (podcast_topic : str)
    (monologue : bool) (w w' : World) (conversation : Conversation) :
  generate_podcast_content env pdf_metadata host_name guest_name duration_minutes
    podcast_topic monologue w = (Ok conversation, w') →
  ∃ summary_text outline reply,
    let p1 := summary_prompt (all_pdf_text pdf_metadata) in
    let p2 := outline_prompt summary_text host_name guest_name duration_minutes
                podcast_topic monologue in
    let p3 := if monologue
              then monologue_prompt outline summary_text host_name duration_minutes
              else dialogue_prompt outline summary_text host_name guest_name
                     duration_minutes in
    let h1 := trace w
              ++ [ Llm p1; Print (lit "<<< PDF summary >>>"); Print summary_text ] in
    let h2 := h1 ++ [ Llm p2; Print (lit "<<< Podcast outline >>>"); Print outline ] in
    llm env (trace w) p1 = Ok summary_text
    ∧ llm env h1 p2 = Ok outline
    ∧ llm env h2 p3 = Ok reply
    ∧ parse_conversation env reply = Ok conversation
    ∧ trace w' = h2 ++ [ Llm p3; Print (lit "<<< Podcast content >>>"); Print reply ]
    ∧ omap llm_prompt (drop (length (trace w)) (trace w')) = [ p1; p2; p3 ]
    ∧ files w' = files w.
Proof.
  intros Hrun.
  destruct (generate_podcast_content_Ok _ _ _ _ _ _ _ _ _ _ Hrun)
    as (summary_text & outline & reply & H1 & H2 & H3 & Hp & Htr & Hf).
  exists summary_text, outline, reply. cbn zeta in *.
  split_and!; [exact H1 | exact H2 | | exact Hp | | | exact Hf].
  - rewrite <-app_assoc. exact H3.
  - rewrite Htr. unfold planning_events. rewrite <-!app_assoc. reflexivity.
  - rewrite Htr, drop_app_length. reflexivity.
Qed.

Definition demo_reply_json : json :=
  JObj [ (lit "title", JStr (lit "T")); (lit "summary", JStr (lit "S"));
         (lit "lines",
          JArr [ JObj [ (lit "text", JStr (lit "Hello."));
                        (lit "speaker", JStr (lit "Adam")) ];
                 JObj [ (lit "text", JStr (lit "Hi."));
                        (lit "speaker", JStr (lit "Bella")) ] ]) ].

Lemma planner_three_calls_witness :
  ∃ conversation w',
    generate_podcast_content (demo_env (lit "{}") (Ok demo_reply_json))
      one_short_document (lit "Adam") (lit "Bella") 5 [] false empty_world
    = (Ok conversation, w')
    ∧ omap llm_prompt (trace w')
      = [ summary_prompt (all_pdf_text one_short_document);
          outline_prompt (lit "{}") (lit "Adam") (lit "Bella") 5 [] false;
          dialogue_prompt (lit "{}") (lit "{}") (lit "Adam") (lit "Bella") 5 ]
    ∧ files w' = ∅.
Proof.
  destruct (generate_podcast_content (demo_env (lit "{}") (Ok demo_reply_json))
              one_short_document (lit "Adam") (lit "Bella") 5 [] false empty_world)
    as [[conversation|e] w'] eqn:Hrun; [|by vm_compute in Hrun].
  destruct (planner_three_calls _ _ _ _ _ _ _ _ _ _ Hrun)
    as (s & o & r & H1 & H2 & H3 & _ & _ & Hllm & Hf).
  cbn zeta in *. cbn [demo_env llm] in H1, H2, H3.
  injection H1 as <-. injection H2 as <-.
  exists conversation, w'. split_and!; [reflexivity | exact Hllm | exact Hf].
Defined.

(** ** Decoding the conversation *)

(** An object with the fields of a dialogue entry. *)
Definition line_of (entry : DialogueEntry) (line : json) : Prop :=
  ∃ fields, line = JObj fields
    ∧ assoc (lit "text") fields = Some (text entry)
    ∧ assoc (lit "speaker") fields = Some (speaker entry).

Lemma decode_line_Ok (line : json) (entry : DialogueEntry) :
  decode_line line = Ok entry ↔ line_of entry line.
Proof.
  unfold decode_line, line_of. split.
  - destruct line as [| | | | |?|fields]; try done. cbn [subscript].
    destruct (assoc (lit "text") fields) as [t|] eqn:Ht; [|done].
    destruct (assoc (lit "speaker") fields) as [s|] eqn:Hs; [|done].
    cbn. intros [= <-]. by exists fields.
  - intros (fields & -> & Ht & Hs). cbn [subscript]. rewrite Ht, Hs. cbn.
    by destruct entry.
Qed.

(** The planner, started in [w], receives [reply] as the answer to its third
    generation call, the first two calls having been answered as well. *)
Definition script_reply (env : Env) (pdf_metadata : list PDFMetadata)
    (host_name guest_name : str) (duration_minutes : Z) (podcast_topic : str)
    (monologue : bool) (w : World) (reply : str) : Prop :=
  ∃ summary_text outline,
    let p1 := summary_prompt (all_pdf_text pdf_metadata) in
    let p2 := outline_prompt summary_text host_name guest_name duration_minutes
                podcast_topic monologue in
    let p3 := if monologue
              then monologue_prompt outline summary_text host_name duration_minutes
              else dialogue_prompt outline summary_text host_name guest_name
                     duration_minutes in
    let h1 := trace w
              ++ [ Llm p1; Print (lit "<<< PDF summary >>>"); Print summary_text ] in
    let h2 := h1 ++ [ Llm p2; Print (lit "<<< Podcast outline >>>"); Print outline ] in
    llm env (trace w) p1 = Ok summary_text
    ∧ llm env h1 p2 = Ok outline
    ∧ llm env h2 p3 = Ok reply.

(** Once the third reply is in, the outcome of the planner is the outcome of
    parsing it. *)
Lemma generate_podcast_content_parse env pdf_metadata host_name guest_name
    duration_minutes podcast_topic monologue w reply :
  script_reply env pdf_metadata host_name guest_name duration_minutes podcast_topic
    monologue w reply →
  ∃ w', generate_podcast_content env pdf_metadata host_name guest_name
          duration_minutes podcast_topic monologue w
        = (parse_conversation env reply, w')
        ∧ files w' = files w.
Proof.
  intros (summary_text & outline & H1 & H2 & H3). cbn zeta in *.
  rewrite <-app_assoc in H3. cbn [app] in H3.
  unfold generate_podcast_content. run_step. rewrite H1. run_step.
  rewrite <-?app_assoc. cbn [app]. rewrite H2. run_step.
  rewrite <-?app_assoc. cbn [app]. rewrite H3. run_step. by eexists.
Qed.

Lemma decode_conversation_fields (fields : list (str * json)) (t s : json)
    (items : list json) (entries : list DialogueEntry) :
  assoc (lit "lines") fields = Some (JArr items) →
  Forall2 line_of entries items →
  assoc (lit "title") fields = Some t →
  assoc (lit "summary") fields = Some s →
  decode_conversation (JObj fields)
  = Ok {| title := t; summary := s; lines := entries |}.
Proof.
  intros Hl Hitems Ht Hs. unfold decode_conversation. cbn [subscript].
  rewrite Hl. cbn [res_bind iterate].
  assert (res_map decode_line items = Ok entries) as ->.
  { apply res_map_Ok. apply Forall2_flip. eapply list.Forall2_impl; [exact Hitems|].
    intros entry line. apply decode_line_Ok. }
  cbn [res_bind]. by rewrite Ht, Hs.
Qed.

(** X7: when the payload of the third reply decodes to an object whose
    ["lines"] is an array of objects with a ["text"] and a ["speaker"], and
    which has a ["title"] and a ["summary"], the planner returns the
    conversation with these values, the lines in the order of the array.
    Other keys are ignored, the order of the keys does not matter, and the
    values are taken as they are, whatever their type. *)
Theorem planner_decodes (env : Env) (pdf_metadata : list PDFMetadata)
    (host_name guest_name : str) (duration_minutes : Z) (podcast_topic : str)
    (monologue : bool) (w : World) (reply payload : str)
    (fields : list (str * json)) (t s : json) (items : list json)
    (entries : list DialogueEntry) :
  script_reply env pdf_metadata host_name guest_name duration_minutes podcast_topic
    monologue w reply →
  extract_json reply = Ok payload →
  json_loads env payload = Ok (JObj fields) →
  assoc (lit "lines") fields = Some (JArr items) →
  Forall2 line_of entries items →
  assoc (lit "title") fields = Some t →
  assoc (lit "summary") fields = Some s →
  ∃ w', generate_podcast_content env pdf_metadata host_name guest_name
          duration_minutes podcast_topic monologue w
        = (Ok {| title := t; summary := s; lines := entries |}, w').
Proof.
  intros Hreply Hx Hj Hl Hitems Ht Hs.
  destruct (generate_podcast_content_parse _ _ _ _ _ _ _ _ _ Hreply) as (w' & -> & _).
  exists w'. unfold parse_conversation. rewrite Hx. cbn [res_bind]. rewrite Hj.
  cbn [res_bind]. by rewrite (decode_conversation_fields _ _ _ _ _ Hl Hitems Ht Hs).
Qed.

Definition loose_reply_json : json :=
  JObj [ (lit "note", JNull);
         (lit "summary", JInt 7);
         (lit "lines",
          JArr [ JObj [ (lit "speaker", JStr (lit "Adam"));
                        (lit "mood", JStr (lit "calm"));
                        (lit "text", JStr (lit "Hello.")) ] ]);
         (lit "title", JArr []) ].

Lemma script_reply_demo reply decoded pdf_metadata host_name guest_name
    duration_minutes podcast_topic monologue w :
  script_reply (demo_env reply decoded) pdf_metadata host_name guest_name
    duration_minutes podcast_topic monologue w reply.
Proof. eexists _, _. cbn zeta. split_and!; reflexivity. Qed.

Lemma planner_decodes_witness :
  ∃ w', generate_podcast_content (demo_env (lit "```json {} ```") (Ok loose_reply_json))
          one_short_document (lit "Adam") (lit "Bella") 5 [] false empty_world
        = (Ok {| title := JArr []; summary := JInt 7;
                 lines := [ say "Adam" "Hello." ] |}, w').
Proof.
  apply (planner_decodes _ _ _ _ _ _ _ _ (lit "```json {} ```") (lit "{}")
           [ (lit "note", JNull);
             (lit "summary", JInt 7);
             (lit "lines",
              JArr [ JObj [ (lit "speaker", JStr (lit "Adam"));
                            (lit "mood", JStr (lit "calm"));
                            (lit "text", JStr (lit "Hello.")) ] ]);
             (lit "title", JArr []) ] _ _
           [ JObj [ (lit "speaker", JStr (lit "Adam"));
                    (lit "mood", JStr (lit "calm"));
                    (lit "text", JStr (lit "Hello.")) ] ]).
  - apply script_reply_demo.
  - vm_compute. reflexivity.
  - reflexivity.
  - reflexivity.
  - constructor; [|constructor]. eexists. split_and!; reflexivity.
  - reflexivity.
  - reflexivity.
Defined.

Lemma decode_conversation_raises (data : json) :
  ((∀ fs, data ≠ JObj fs) → decode_conversation data = Raise TypeError)
  ∧ ∀ fields, data = JObj fields →
    (assoc (lit "lines") fields = None →
     decode_conversation data = Raise KeyError)
    ∧ (∀ v, assoc (lit "lines") fields = Some v →
         (v = JNull ∨ (∃ b, v = JBool b) ∨ (∃ z, v = JInt z) ∨ (∃ f, v = JFloat f)) →
         decode_conversation data = Raise TypeError)
    ∧ (∀ good line rest entries,
         assoc (lit "lines") fields = Some (JArr (good ++ line :: rest)) →
         Forall2 line_of entries good →
         ((∀ fs, line ≠ JObj fs) → decode_conversation data = Raise TypeError)
         ∧ (∀ fs, line = JObj fs →
              assoc (lit "text") fs = None ∨ assoc (lit "speaker") fs = None →
              decode_conversation data = Raise KeyError))
    ∧ (∀ items entries,
         assoc (lit "lines") fields = Some (JArr items) →
         Forall2 line_of entries items →
         assoc (lit "title") fields = None ∨ assoc (lit "summary") fields = None →
         decode_conversation data = Raise KeyError).
Proof.
  split.
  { intros Hobj. destruct data; try done. by destruct (Hobj fields). }
  intros fields ->. split_and!.
  - intros Hl. unfold decode_conversation. cbn [subscript]. by rewrite Hl.
  - intros v Hl Hv. unfold decode_conversation. cbn [subscript]. rewrite Hl.
    destruct Hv as [-> | [[b ->] | [[z ->] | [f ->]]]]; done.
  - intros good line rest entries Hl Hgood.
    assert (∀ e, decode_line line = Raise e →
                 decode_conversation (JObj fields) = Raise e) as Hline.
    { intros e He. unfold decode_conversation. cbn [subscript]. rewrite Hl.
      cbn [res_bind iterate].
      assert (res_map decode_line (good ++ line :: rest) = Raise e) as ->; [|done].
      clear Hl. induction Hgood as [|entry item entries good Hitem _ IH].
      - cbn. by rewrite He.
      - cbn. apply decode_line_Ok in Hitem. rewrite Hitem. cbn. by rewrite IH. }
    split.
    + intros Hobj. apply Hline. destruct line; try done. by destruct (Hobj fields0).
    + intros fs -> Hmiss. apply Hline. unfold decode_line. cbn [subscript].
      destruct Hmiss as [-> | Hs]; [done|].
      destruct (assoc (lit "text") fs); cbn; by rewrite ?Hs.
  - intros items entries Hl Hitems Hmiss. unfold decode_conversation.
    cbn [subscript]. rewrite Hl. cbn [res_bind iterate].
    assert (res_map decode_line items = Ok entries) as ->.
    { apply res_map_Ok. apply Forall2_flip.
      eapply list.Forall2_impl; [exact Hitems|].
      intros entry line. apply decode_line_Ok. }
    cbn [res_bind]. destruct Hmiss as [-> | Hs]; [done|].
    destruct (assoc (lit "title") fields); cbn; by rewrite ?Hs.
Qed.

(** X8: what the planner raises once the third reply is in.  An error of the
    JSON decoder on the payload is the planner's error.  A payload that
    decodes to something that is not an object, or to an object whose
    ["lines"] is [null], a boolean or a number, raises [TypeError]; a missing
    ["lines"] raises [KeyError] whatever else is there; a line that is an
    object without ["text"] or ["speaker"] raises [KeyError], and a line that
    is not an object raises [TypeError]; with good lines, a missing ["title"]
    or ["summary"] raises [KeyError]. *)
Theorem planner_decode_errors (env : Env) (pdf_metadata : list PDFMetadata)
    (host_name guest_name : str) (duration_minutes : Z) (podcast_topic : str)
    (monologue : bool) (w : World) (reply payload : str) :
  script_reply env pdf_metadata host_name guest_name duration_minutes podcast_topic
    monologue w reply →
  extract_json reply = Ok payload →
  ∃ r w',
    generate_podcast_content env pdf_metadata host_name guest_name
      duration_minutes podcast_topic monologue w = (r, w')
    ∧ (∀ e, json_loads env payload = Raise e → r = Raise e)
    ∧ ((∀ fs, json_loads env payload ≠ Ok (JObj fs)) → ∃ e, r = Raise e)
    ∧ ∀ data, json_loads env payload = Ok data →
      ((∀ fs, data ≠ JObj fs) → r = Raise TypeError)
      ∧ ∀ fields, data = JObj fields →
        (assoc (lit "lines") fields = None → r = Raise KeyError)
        ∧ (∀ v, assoc (lit "lines") fields = Some v →
             (v = JNull ∨ (∃ b, v = JBool b) ∨ (∃ z, v = JInt z)
              ∨ (∃ f, v = JFloat f)) →
             r = Raise TypeError)
        ∧ (∀ good line rest entries,
             assoc (lit "lines") fields = Some (JArr (good ++ line :: rest)) →
             Forall2 line_of entries good →
             ((∀ fs, line ≠ JObj fs) → r = Raise TypeError)
             ∧ (∀ fs, line = JObj fs →
                  assoc (lit "text") fs = None ∨ assoc (lit "speaker") fs = None →
                  r = Raise KeyError))
        ∧ (∀ items entries,
             assoc (lit "lines") fields = Some (JArr items) →
             Forall2 line_of entries items →
             assoc (lit "title") fields = None ∨ assoc (lit "summary") fields = None →
             r = Raise KeyError).
Proof.
  intros Hreply Hx.
  destruct (generate_podcast_content_parse _ _ _ _ _ _ _ _ _ Hreply) as (w' & -> & _).
  exists (parse_conversation env reply), w'. split; [reflexivity|].
  unfold parse_conversation. rewrite Hx. cbn [res_bind].
  destruct (json_loads env payload) as [data|e0]; cbn [res_bind].
  - split_and!; [done | | ].
    + intros Hobj. pose proof (decode_conversation_raises data) as [Hty _].
      exists TypeError. apply Hty. intros fs ->. by apply (Hobj fs).
    + intros ? [= <-]. apply decode_conversation_raises.
  - split_and!; [by intros ? [= <-] | by eexists | done].
Qed.

Lemma planner_decode_errors_witness :
  ∃ w', generate_podcast_content
          (demo_env (lit "{}")
             (Ok (JObj [ (lit "lines", JArr [ JObj [ (lit "text", JStr (lit "Hi.")) ] ]);
                         (lit "title", JStr (lit "T"));
                         (lit "summary", JStr (lit "S")) ])))
          one_short_document (lit "Adam") (lit "Bella") 5 [] false empty_world
        = (Raise KeyError, w').
Proof.
  destruct (planner_decode_errors
              (demo_env (lit "{}")
                 (Ok (JObj [ (lit "lines",
                              JArr [ JObj [ (lit "text", JStr (lit "Hi.")) ] ]);
                             (lit "title", JStr (lit "T"));
                             (lit "summary", JStr (lit "S")) ])))
              one_short_document (lit "Adam") (lit "Bella") 5 [] false empty_world
              (lit "{}") (lit "{}"))
    as (r & w' & Hrun & _ & _ & Hdata).
  - apply script_reply_demo.
  - vm_compute. reflexivity.
  - destruct (Hdata _ eq_refl) as [_ Hobj].
    destruct (Hobj _ eq_refl) as (_ & _ & Hline & _).
    destruct (Hline [] (JObj [ (lit "text", JStr (lit "Hi.")) ]) [] [] eq_refl
                (Forall2_nil _)) as [_ Hkey].
    exists w'. rewrite Hrun. f_equal. apply (Hkey _ eq_refl). by right.
Defined.

(** ** Voices in the mapping *)

Lemma map_extra_speakers_values host guest i extras (vm : gmap key str) k v :
  map_extra_speakers host guest i extras vm !! k = Some v →
  v = host ∨ v = guest ∨ vm !! k = Some v.
Proof.
  revert i vm. induction extras as [|s extras IH]; intros i vm Hv; [by auto|].
  cbn [map_extra_speakers] in Hv. apply IH in Hv as [->|[->|Hv]]; [by auto..|].
  destruct (decide (s = k)) as [->|Hne].
  - rewrite lookup_insert_eq in Hv. injection Hv as <-.
    destruct (Nat.even i); auto.
  - rewrite lookup_insert_ne in Hv by done. auto.
Qed.

(** The mapping uses no voice but the two it is given, and in monologue mode
    only the host voice. *)
Lemma build_voice_mapping_voices (monologue : bool) (host_voice guest_voice : str)
    (speaker_list : list key) k v :
  build_voice_mapping monologue host_voice guest_voice speaker_list !! k = Some v →
  v = host_voice ∨ (monologue = false ∧ v = guest_voice).
Proof.
  intros Hv. destruct monologue; cbn [build_voice_mapping] in Hv.
  - rewrite monologue_lookup in Hv. destruct (decide (k ∈ speaker_list)).
    + injection Hv as <-. by left.
    + by rewrite lookup_empty in Hv.
  - apply map_extra_speakers_values in Hv as [->|[->|Hv]]; [by auto..|].
    destruct speaker_list as [|a [|b l]]; cbn in Hv.
    + by rewrite lookup_empty in Hv.
    + apply lookup_insert_Some in Hv as [[_ <-]|[_ Hv]]; [by auto|].
      by rewrite lookup_empty in Hv.
    + apply lookup_insert_Some in Hv as [[_ <-]|[_ Hv]]; [by auto|].
      apply lookup_insert_Some in Hv as [[_ <-]|[_ Hv]]; [by auto|].
      by rewrite lookup_empty in Hv.
Qed.

(** With at most one speaker the mapping holds the host voice only, in either
    mode. *)
Lemma build_voice_mapping_single (monologue : bool) (host_voice guest_voice : str)
    (speaker_list : list key) k0 k v :
  NoDup speaker_list → (∀ x, x ∈ speaker_list → x = k0) →
  build_voice_mapping monologue host_voice guest_voice speaker_list !! k = Some v →
  v = host_voice.
Proof.
  intros Hnd Hall Hv.
  destruct speaker_list as [|a [|b l]].
  - destruct monologue; cbn in Hv; by rewrite lookup_empty in Hv.
  - destruct monologue; cbn in Hv;
      apply lookup_insert_Some in Hv as [[_ <-]|[_ Hv]]; try done;
      by rewrite lookup_empty in Hv.
  - exfalso. apply list.NoDup_cons in Hnd as [Hab _]. apply Hab.
    rewrite (Hall a) by left. rewrite (Hall b) by (right; left). left.
Qed.

(** ** The synthesis requests *)

Definition start_request (ev : event) : option tts_request :=
  match ev with
  | TtsStart request => Some request
  | _ => None
  end.

Lemma dispatched_requests env vm h entries tasks evs :
  dispatched env vm h entries tasks evs →
  Forall2 (λ entry request,
             lookup_voice vm (speaker entry) = Ok (voice_id request)
             ∧ request = synthesis_request (text entry) (voice_id request))
    entries (omap start_request evs).
Proof.
  intros H. induction H as [h | h entry rest voice task tasks evs Hv Ht Hd IH].
  - constructor.
  - cbn. constructor; [by split | done].
Qed.

Lemma collected_no_requests env i h tasks evs :
  collected env i h tasks evs → omap start_request evs = [].
Proof.
  intros H. induction H as [i h | i h task rest url audio evs Hw Hg Hc IH]; [done|].
  cbn. done.
Qed.

(** X10: in a run of [generate_audio] that returns, the synthesis requests
    are, line by line, the line's text with the voice the mapping gives to
    the line's speaker, always at sample rate 44100 with English
    normalization and the "English" language boost; two lines with the same
    speaker are therefore read by the same voice. *)
Theorem synthesis_requests (env : Env) (conversation : Conversation)
    (host_voice guest_voice : str) (monologue : bool) (w w' : World) (path : str) :
  generate_audio env conversation host_voice guest_voice monologue w
  = (Ok path, w') →
  ∃ vm evs,
    voice_assignment env conversation host_voice guest_voice monologue = Ok vm
    ∧ trace w' = trace w ++ evs
    ∧ Forall2 (λ entry request,
                 lookup_voice vm (speaker entry) = Ok (voice_id request)
                 ∧ req_text request = text entry
                 ∧ sample_rate request = 44100%Z
                 ∧ english_normalization request = true
                 ∧ language_boost request = lit "English")
        (lines conversation) (omap start_request evs)
    ∧ ∀ i j e1 e2 r1 r2,
        lines conversation !! i = Some e1 → lines conversation !! j = Some e2 →
        omap start_request evs !! i = Some r1 →
        omap start_request evs !! j = Some r2 →
        speaker e1 = speaker e2 → voice_id r1 = voice_id r2.
Proof.
  intros Hrun.
  apply generate_audio_Ok in Hrun
    as (vm & tasks & starts & fetches & Hvm & Hd & Hc & Htr & _).
  pose proof (dispatched_requests _ _ _ _ _ _ Hd) as Hreq.
  assert (omap start_request
            (starts ++ fetches ++ combining_events (length (lines conversation)))
          = omap start_request starts) as Hom.
  { rewrite !omap_app, (collected_no_requests _ _ _ _ _ Hc). cbn.
    by rewrite app_nil_r. }
  exists vm, (starts ++ fetches ++ combining_events (length (lines conversation))).
  rewrite Hom. split_and!; [done | done | |].
  - eapply list.Forall2_impl; [exact Hreq|]. intros entry request [Hv ->]. done.
  - intros i j e1 e2 r1 r2 Hi Hj Hr1 Hr2 Hsp.
    destruct (Forall2_lookup_lr _ _ _ _ _ _ Hreq Hi Hr1) as [Hv1 _].
    destruct (Forall2_lookup_lr _ _ _ _ _ _ Hreq Hj Hr2) as [Hv2 _].
    rewrite Hsp in Hv1. congruence.
Qed.

Lemma synthesis_requests_witness :
  ∃ w' r0 r2,
    generate_audio (demo_env [] (Raise JSONDecodeError)) demo_dialogue
      (lit "Patient_Man") (lit "Wise_Woman") false empty_world
    = (Ok (lit "podcast.mp3"), w')
    ∧ omap start_request (trace w') !! 0 = Some r0
    ∧ omap start_request (trace w') !! 2 = Some r2
    ∧ voice_id r0 = voice_id r2.
Proof.
  destruct (generate_audio_total (demo_env [] (Raise JSONDecodeError)) demo_dialogue
              (lit "Patient_Man") (lit "Wise_Woman") false empty_world
              [KStr (lit "Adam"); KStr (lit "Bella"); KStr (lit "Adam")])
    as [w' Hrun].
  - apply demo_env_set_order_ok.
  - reflexivity.
  - intros h request. by eexists.
  - intros h task. by eexists.
  - intros h url. by eexists.
  - intros h fs cmd. by eexists.
  - destruct (synthesis_requests _ _ _ _ _ _ _ _ Hrun)
      as (vm & evs & _ & Htr & Hreq & Hsame).
    cbn [trace empty_world app] in Htr.
    destruct (Forall2_lookup_l _ _ _ 0 (say "Adam" "Hello.") Hreq eq_refl)
      as (r0 & Hr0 & _).
    destruct (Forall2_lookup_l _ _ _ 2 (say "Adam" "Bye.") Hreq eq_refl)
      as (r2 & Hr2 & _).
    exists w', r0, r2. rewrite Htr. split_and!; [done..|].
    by apply (Hsame 0 2 (say "Adam" "Hello.") (say "Adam" "Bye.")).
Defined.

(** ** Runs of [generate_audio] at the edges *)

Definition run_cmd (ev : event) : option (list str) :=
  match ev with
  | Run cmd => Some cmd
  | _ => None
  end.

(** X11: on a script without lines [generate_audio] dispatches nothing and
    writes no segment, yet it writes an empty manifest and invokes the
    concatenation utility on it; the outcome is that of the utility. *)
Theorem generate_audio_no_lines (env : Env) (conversation : Conversation)
    (host_voice guest_voice : str) (monologue : bool) (w : World) :
  lines conversation = [] →
  let file_list_path := lit "/tmp/file_list.txt" in
  let cmd := ffmpeg_cmd file_list_path (lit "podcast.mp3") in
  let evs := [ Print (lit "TTS completed, combining audio files");
               Write file_list_path [] ] in
  generate_audio env conversation host_voice guest_voice monologue w
  = match subprocess_run env (trace w ++ evs) (<[file_list_path := []]> (files w)) cmd
    with
    | Ok files' =>
        (Ok (lit "podcast.mp3"),
         {| files := files'; trace := trace w ++ evs ++ [Run cmd] |})
    | Raise e =>
        (Raise e,
         {| files := <[file_list_path := []]> (files w);
            trace := trace w ++ evs ++ [Run cmd] |})
    end.
Proof.
  intros Hlines. cbn zeta. unfold generate_audio, voice_assignment, speaker_keys.
  rewrite Hlines. cbn [res_map res_bind]. run_step. cbn [dispatch_loop]. run_step.
  cbn [collect_loop]. run_step. unfold combine_audio_files. run_step.
  cbn [fmap list_fmap concat]. rewrite <-!app_assoc. cbn [app].
  by destruct (subprocess_run env _ _ _).
Qed.

Lemma generate_audio_no_lines_witness :
  ∃ w',
    generate_audio (demo_env [] (Raise JSONDecodeError))
      {| title := JNull; summary := JNull; lines := [] |}
      (lit "Patient_Man") (lit "Wise_Woman") false empty_world
    = (Ok (lit "podcast.mp3"), w')
    ∧ omap start_request (trace w') = []
    ∧ omap run_cmd (trace w')
      = [ ffmpeg_cmd (lit "/tmp/file_list.txt") (lit "podcast.mp3") ].
Proof.
  eexists. rewrite generate_audio_no_lines by reflexivity. cbn.
  split_and!; reflexivity.
Defined.

Lemma dispatch_loop_no_run env vm entries acc w r w' :
  dispatch_loop env vm entries acc w = (r, w') →
  ∃ evs, trace w' = trace w ++ evs ∧ omap run_cmd evs = [] ∧ files w' = files w.
Proof.
  revert acc w. induction entries as [|entry rest IH]; intros acc w Hrun.
  - cbn in Hrun. injection Hrun as <- <-. exists []. by rewrite app_nil_r.
  - cbn [dispatch_loop] in Hrun. run_step.
    destruct (lookup_voice vm (speaker entry)) as [voice|].
    + destruct (tts_start env (trace w) _) as [task|].
      * apply IH in Hrun as (evs & Htr & Hno & Hf). cbn [trace files] in *.
        rewrite <-app_assoc in Htr. eexists. split_and!; [exact Htr | done | done].
      * injection Hrun as <- <-. cbn [trace]. by eexists.
    + injection Hrun as <- <-. exists []. by rewrite app_nil_r.
Qed.

Lemma collect_loop_no_run env i tasks segments w r w' :
  collect_loop env i tasks segments w = (r, w') →
  ∃ evs, trace w' = trace w ++ evs ∧ omap run_cmd evs = [].
Proof.
  revert i segments w. induction tasks as [|task rest IH]; intros i segments w Hrun.
  - cbn in Hrun. injection Hrun as <- <-. exists []. by rewrite app_nil_r.
  - cbn [collect_loop] in Hrun. run_step.
    destruct (tts_wait env (trace w) task) as [url|].
    + destruct (requests_get env _ url) as [audio|].
      * apply IH in Hrun as (evs & Htr & Hno). cbn [trace] in Htr.
        rewrite <-!app_assoc in Htr. eexists. split; [exact Htr | done].
      * injection Hrun as <- <-. cbn [trace]. rewrite <-app_assoc. by eexists.
    + injection Hrun as <- <-. cbn [trace]. by eexists.
Qed.

(** X12: [generate_audio] invokes the concatenation utility at most once, as
    its last action.  It returns a path, always "podcast.mp3", only when that
    invocation succeeded, the files then being those the utility left; when
    it raises, either the utility was never invoked or the error is the
    utility's. *)
Theorem generate_audio_all_or_nothing (env : Env) (conversation : Conversation)
    (host_voice guest_voice : str) (monologue : bool) (w w' : World)
    (r : res str) :
  generate_audio env conversation host_voice guest_voice monologue w = (r, w') →
  let cmd := ffmpeg_cmd (lit "/tmp/file_list.txt") (lit "podcast.mp3") in
  ∃ evs, trace w' = trace w ++ evs ∧
    match r with
    | Ok path =>
        path = lit "podcast.mp3"
        ∧ ∃ evs0 fs, evs = evs0 ++ [Run cmd] ∧ omap run_cmd evs0 = []
            ∧ subprocess_run env (trace w ++ evs0) fs cmd = Ok (files w')
    | Raise e =>
        omap run_cmd evs = []
        ∨ ∃ evs0 fs, evs = evs0 ++ [Run cmd] ∧ omap run_cmd evs0 = []
            ∧ subprocess_run env (trace w ++ evs0) fs cmd = Raise e
    end.
Proof.
  unfold generate_audio. intros Hrun. run_step.
  destruct (voice_assignment env conversation host_voice guest_voice monologue)
    as [vm|].
  2:{ injection Hrun as <- <-. exists []. rewrite app_nil_r. split; [done|]. by left. }
  destruct (dispatch_loop env vm (lines conversation) [] w) as [[tasks|e1] w1] eqn:Hd.
  2:{ injection Hrun as <- <-.
      apply dispatch_loop_no_run in Hd as (evs & Htr & Hno & _).
      exists evs. split; [done|]. by left. }
  apply dispatch_loop_no_run in Hd as (evs1 & Htr1 & Hno1 & _).
  destruct (collect_loop env 0 tasks [] w1) as [[segments|e2] w2] eqn:Hc.
  2:{ injection Hrun as <- <-.
      apply collect_loop_no_run in Hc as (evs & Htr & Hno).
      exists (evs1 ++ evs). rewrite Htr, Htr1, <-app_assoc. split; [done|].
      left. by rewrite omap_app, Hno1, Hno. }
  apply collect_loop_no_run in Hc as (evs2 & Htr2 & Hno2).
  unfold combine_audio_files in Hrun. run_step.
  set (evs0 := evs1 ++ evs2
               ++ [Print (lit "TTS completed, combining audio files");
                   Write (lit "/tmp/file_list.txt")
                     (concat (manifest_line env <$> segments))]).
  assert ((trace w2 ++ [Print (lit "TTS completed, combining audio files")])
          ++ [Write (lit "/tmp/file_list.txt")
                (concat (manifest_line env <$> segments))]
          = trace w ++ evs0) as Hh.
  { unfold evs0. rewrite Htr2, Htr1. by rewrite <-!app_assoc. }
  assert (omap run_cmd evs0 = []) as Hno0.
  { unfold evs0. by rewrite !omap_app, Hno1, Hno2. }
  rewrite Hh in Hrun.
  destruct (subprocess_run env (trace w ++ evs0) _ _) as [files'|e3] eqn:Hs;
    injection Hrun as <- <-; cbn [trace files];
    exists (evs0 ++ [Run (ffmpeg_cmd (lit "/tmp/file_list.txt") (lit "podcast.mp3"))]);
    rewrite app_assoc; (split; [done|]).
  - split; [done|]. by eexists _, _.
  - right. by eexists _, _.
Qed.

(** A synthesis service that refuses every request. *)
Definition refusing_env : Env :=
  {| pdf_extractor := pdf_extractor (demo_env [] (Raise JSONDecodeError));
     requests_get := requests_get (demo_env [] (Raise JSONDecodeError));
     decode_text := Ok;
     llm := λ _ _, Ok [];
     tts_start := λ _ _, Raise ModelError;
     tts_wait := λ _ _, Raise ModelError;
     subprocess_run := λ _ fs _, Ok fs;
     json_loads := λ _, Raise JSONDecodeError;
     set_order := remove_dups;
     cwd := lit "/src" |}.

Lemma generate_audio_all_or_nothing_witness :
  ∃ w',
    generate_audio refusing_env demo_dialogue (lit "Patient_Man") (lit "Wise_Woman")
      false empty_world = (Raise ModelError, w')
    ∧ omap run_cmd (trace w') = [].
Proof.
  destruct (generate_audio refusing_env demo_dialogue (lit "Patient_Man")
              (lit "Wise_Woman") false empty_world) as [r w'] eqn:Hrun.
  destruct (generate_audio_all_or_nothing _ _ _ _ _ _ _ _ Hrun) as (evs & Htr & Hr).
  assert (r = Raise ModelError) as ->.
  { apply (f_equal fst) in Hrun. vm_compute in Hrun. done. }
  exists w'. split; [done|]. cbn [trace empty_world app] in Htr. rewrite Htr.
  destruct Hr as [Hno | (evs0 & fs & _ & _ & Hs)]; [done|]. done.
Defined.

(** ** The voices of a run *)

Lemma dispatch_loop_voices env vm entries acc w r w' :
  dispatch_loop env vm entries acc w = (r, w') →
  ∃ evs, trace w' = trace w ++ evs
    ∧ Forall (λ request, ∃ k, vm !! k = Some (voice_id request))
        (omap start_request evs).
Proof.
  revert acc w. induction entries as [|entry rest IH]; intros acc w Hrun.
  - cbn in Hrun. injection Hrun as <- <-. exists []. by rewrite app_nil_r.
  - cbn [dispatch_loop] in Hrun. run_step.
    destruct (lookup_voice vm (speaker entry)) as [voice|] eqn:Hv.
    + assert (∃ k, vm !! k = Some voice) as Hk.
      { unfold lookup_voice in Hv. destruct (key_of (speaker entry)) as [k|]; [|done].
        cbn in Hv. destruct (vm !! k) as [v|] eqn:Hvm; [|done].
        injection Hv as <-. by exists k. }
      destruct (tts_start env (trace w) _) as [task|].
      * apply IH in Hrun as (evs & Htr & Hall). cbn [trace] in Htr.
        rewrite <-app_assoc in Htr. eexists. split; [exact Htr|].
        cbn. by constructor.
      * injection Hrun as <- <-. cbn [trace]. eexists. split; [done|].
        cbn. by constructor.
    + injection Hrun as <- <-. exists []. by rewrite app_nil_r.
Qed.

Lemma collect_loop_no_requests env i tasks segments w r w' :
  collect_loop env i tasks segments w = (r, w') →
  ∃ evs, trace w' = trace w ++ evs ∧ omap start_request evs = [].
Proof.
  revert i segments w. induction tasks as [|task rest IH]; intros i segments w Hrun.
  - cbn in Hrun. injection Hrun as <- <-. exists []. by rewrite app_nil_r.
  - cbn [collect_loop] in Hrun. run_step.
    destruct (tts_wait env (trace w) task) as [url|].
    + destruct (requests_get env _ url) as [audio|].
      * apply IH in Hrun as (evs & Htr & Hno). cbn [trace] in Htr.
        rewrite <-!app_assoc in Htr. eexists. split; [exact Htr | done].
      * injection Hrun as <- <-. cbn [trace]. rewrite <-app_assoc. by eexists.
    + injection Hrun as <- <-. cbn [trace]. by eexists.
Qed.

(** The synthesis requests of a run of [generate_audio], whatever its outcome,
    carry voices of the mapping. *)
Lemma generate_audio_voices env conversation host_voice guest_voice monologue w r w' :
  generate_audio env conversation host_voice guest_voice monologue w = (r, w') →
  ∃ evs, trace w' = trace w ++ evs
    ∧ (omap start_request evs = []
       ∨ ∃ keys,
           speaker_keys conversation = Ok keys
           ∧ Forall (λ request,
                       ∃ k, build_voice_mapping monologue host_voice guest_voice
                              (set_order env keys) !! k = Some (voice_id request))
               (omap start_request evs)).
Proof.
  unfold generate_audio, voice_assignment. intros Hrun. run_step.
  destruct (speaker_keys conversation) as [keys|] eqn:Hkeys; cbn [res_bind] in Hrun.
  2:{ injection Hrun as <- <-. exists []. rewrite app_nil_r. by auto. }
  destruct (dispatch_loop env _ (lines conversation) [] w) as [[tasks|e1] w1] eqn:Hd.
  2:{ injection Hrun as <- <-.
      apply dispatch_loop_voices in Hd as (evs & Htr & Hall).
      exists evs. split; [done|]. right. by exists keys. }
  apply dispatch_loop_voices in Hd as (evs1 & Htr1 & Hall1).
  destruct (collect_loop env 0 tasks [] w1) as [[segments|e2] w2] eqn:Hc.
  2:{ injection Hrun as <- <-.
      apply collect_loop_no_requests in Hc as (evs2 & Htr2 & Hno2).
      exists (evs1 ++ evs2). rewrite Htr2, Htr1, <-app_assoc. split; [done|].
      right. exists keys. split; [done|]. by rewrite omap_app, Hno2, app_nil_r. }
  apply collect_loop_no_requests in Hc as (evs2 & Htr2 & Hno2).
  unfold combine_audio_files in Hrun. run_step.
  exists (evs1 ++ evs2
          ++ [ Print (lit "TTS completed, combining audio files");
               Write (lit "/tmp/file_list.txt")
                 (concat (manifest_line env <$> segments));
               Run (ffmpeg_cmd (lit "/tmp/file_list.txt") (lit "podcast.mp3")) ]).
  split.
  - destruct (subprocess_run env _ _ _); injection Hrun as <- <-; cbn [trace];
      rewrite Htr2, Htr1; rewrite <-!app_assoc; reflexivity.
  - right. exists keys. split; [done|].
    rewrite !omap_app, Hno2. cbn. by rewrite app_nil_r.
Qed.

(** X9: whatever its outcome, a run of [generate_audio] asks for no voice
    but the two it is given, and in monologue mode for the host voice only;
    when all the lines have the same speaker, every request asks for the host
    voice in either mode. *)
Theorem synthesis_voices (env : Env) (conversation : Conversation)
    (host_voice guest_voice : str) (monologue : bool) (w w' : World)
    (r : res str) :
  generate_audio env conversation host_voice guest_voice monologue w = (r, w') →
  ∃ evs, trace w' = trace w ++ evs
    ∧ (∀ request, request ∈ omap start_request evs →
         voice_id request = host_voice
         ∨ (monologue = false ∧ voice_id request = guest_voice))
    ∧ (set_order_ok env →
       (∀ e1 e2, e1 ∈ lines conversation → e2 ∈ lines conversation →
                 speaker e1 = speaker e2) →
       ∀ request, request ∈ omap start_request evs → voice_id request = host_voice).
Proof.
  intros Hrun.
  destruct (generate_audio_voices _ _ _ _ _ _ _ _ Hrun) as (evs & Htr & Hreq).
  exists evs. split; [exact Htr|].
  destruct Hreq as [-> | (keys & Hkeys & Hall)].
  { split; [|intros _ _]; intros request Hin; by apply elem_of_nil in Hin. }
  rewrite list.Forall_forall in Hall. split.
  - intros request Hin. destruct (Hall request Hin) as [k Hk].
    by eapply build_voice_mapping_voices.
  - intros Hok Hsame request Hin. destruct (Hall request Hin) as [k Hk].
    destruct (lines conversation) as [|e0 rest] eqn:Hlines.
    + unfold speaker_keys in Hkeys. rewrite Hlines in Hkeys. injection Hkeys as <-.
      destruct (Hok []) as [Hnd Hel].
      eapply (build_voice_mapping_single _ _ _ _ (KStr [])); [exact Hnd | | exact Hk].
      intros x Hx. apply Hel in Hx. by apply elem_of_nil in Hx.
    + destruct (speaker_keys_elem conversation keys e0 Hkeys) as (k0 & Hk0 & _).
      { rewrite Hlines. left. }
      destruct (Hok keys) as [Hnd Hel].
      eapply (build_voice_mapping_single _ _ _ _ k0); [exact Hnd | | exact Hk].
      intros x Hx. apply Hel in Hx.
      destruct (speaker_keys_elem_inv conversation keys x Hkeys Hx)
        as (e & He & Hke).
      rewrite Hlines in He. rewrite (Hsame e e0 He) in Hke by left. congruence.
Qed.

Lemma synthesis_voices_witness :
  ∃ w' evs,
    generate_audio (demo_env [] (Raise JSONDecodeError))
      {| title := JNull; summary := JNull;
         lines := [ say "Carl" "One."; say "Carl" "Two." ] |}
      (lit "Patient_Man") (lit "Wise_Woman") false empty_world
    = (Ok (lit "podcast.mp3"), w')
    ∧ trace w' = evs
    ∧ length (omap start_request evs) = 2
    ∧ ∀ request, request ∈ omap start_request evs →
        voice_id request = lit "Patient_Man".
Proof.
  destruct (generate_audio (demo_env [] (Raise JSONDecodeError))
              {| title := JNull; summary := JNull;
                 lines := [ say "Carl" "One."; say "Carl" "Two." ] |}
              (lit "Patient_Man") (lit "Wise_Woman") false empty_world)
    as [r w'] eqn:Hrun.
  destruct (synthesis_voices _ _ _ _ _ _ _ _ Hrun) as (evs & Htr & _ & Hhost).
  cbn [trace empty_world app] in Htr.
  assert (fst (generate_audio (demo_env [] (Raise JSONDecodeError))
                 {| title := JNull; summary := JNull;
                    lines := [ say "Carl" "One."; say "Carl" "Two." ] |}
                 (lit "Patient_Man") (lit "Wise_Woman") false empty_world)
          = Ok (lit "podcast.mp3")) as Hr by (vm_compute; reflexivity).
  assert (length (omap start_request (trace (snd
            (generate_audio (demo_env [] (Raise JSONDecodeError))
               {| title := JNull; summary := JNull;
                  lines := [ say "Carl" "One."; say "Carl" "Two." ] |}
               (lit "Patient_Man") (lit "Wise_Woman") false empty_world))))
          = 2) as Hlen by (vm_compute; reflexivity).
  rewrite Hrun in Hr, Hlen. cbn [fst snd] in Hr, Hlen. subst r.
  exists w', evs. split_and!; [reflexivity | exact Htr | by rewrite <-Htr |].
  apply Hhost.
  - apply demo_env_set_order_ok.
  - intros e1 e2 H1 H2. cbn [lines] in H1, H2.
    repeat (apply elem_of_cons in H1 as [->|H1]);
      repeat (apply elem_of_cons in H2 as [->|H2]);
      try reflexivity; by apply elem_of_nil in H1 || by apply elem_of_nil in H2.
Defined.

(** ** The stages of a run *)

Definition ingest_event (ev : event) : bool :=
  match ev with
  | Print _ | Extract _ | Get _ | Write _ _ => true
  | _ => false
  end.



Definition extracted_doc (ev : event) : option Path :=
  match ev with
  | Extract doc => Some doc
  | _ => None
  end.

Lemma ingested_events env total i h pdfs docs evs :
  ingested env total i h pdfs docs evs →
  Forall (λ ev, ingest_event ev = true) evs ∧ omap extracted_doc evs = pdfs.
Proof.
  intros H.
  induction H as [i h | i h pdf_path rest url body md docs evs Hx Hg Hdec Hing IH].
  - by split.
  - destruct IH as [Hall Hdocs]. split.
    + by repeat (constructor; [done|]).
    + cbn. by rewrite Hdocs.
Qed.









(** ** A document that cannot be ingested *)

(** [ingest_failure env h pdf_path e evs]: from history [h], which ends with
    the banner of [pdf_path], the processing of [pdf_path] failed with [e]
    and left the events [evs]: the extraction failed, or the fetch of the
    extracted text did, or the decoding of the bytes read back from the
    scratch file. *)
Inductive ingest_failure (env : Env) (h : list event) (pdf_path : Path) (e : exn) :
    list event → Prop :=
  | extraction_failed :
      pdf_extractor env h pdf_path = Raise e →
      ingest_failure env h pdf_path e [Extract pdf_path]
  | fetch_failed url :
      pdf_extractor env h pdf_path = Ok url →
      requests_get env (h ++ [Extract pdf_path]) url = Raise e →
      ingest_failure env h pdf_path e [Extract pdf_path; Get url]
  | decoding_failed url body :
      pdf_extractor env h pdf_path = Ok url →
      requests_get env (h ++ [Extract pdf_path]) url = Ok body →
      decode_text env body = Raise e →
      ingest_failure env h pdf_path e
        [Extract pdf_path; Get url; Write (lit "/tmp/result.md") body].

Lemma process_pdfs_loop_Raise env total i pdfs results w e w' :
  process_pdfs_loop env total i pdfs results w = (Raise e, w') →
  ∃ k bad docs evs0 evs1,
    pdfs !! k = Some bad
    ∧ ingested env total i (trace w) (take k pdfs) docs evs0
    ∧ ingest_failure env (trace w ++ evs0 ++ [banner total (i + k) bad]) bad e evs1
    ∧ trace w' = trace w ++ evs0 ++ banner total (i + k) bad :: evs1.
Proof.
  revert i results w. induction pdfs as [|pdf_path rest IH]; intros i results w Hrun.
  - cbn in Hrun. discriminate Hrun.
  - cbn [process_pdfs_loop] in Hrun. run_step. fold (banner total i pdf_path) in Hrun.
    destruct (pdf_extractor env _ pdf_path) as [url|e1] eqn:Hx.
    + destruct (requests_get env _ url) as [body|e2] eqn:Hg.
      * rewrite read_text_written in Hrun.
        destruct (decode_text env body) as [markdown_text|e3] eqn:Hdec.
        -- apply IH in Hrun as (k & bad & docs & evs0 & evs1 & Hk & Hing & Hfail & Htr).
           cbn [trace] in Hing, Hfail, Htr.
           rewrite <-?app_assoc in Hing. rewrite <-?app_assoc in Hfail.
           rewrite <-?app_assoc in Htr. cbn [app] in Hing, Hfail, Htr.
           replace (S i + k) with (i + S k) in Hfail, Htr by lia.
           exists (S k), bad,
             ({| filename := path_name pdf_path; markdown := markdown_text;
                 type := role_at i |} :: docs),
             ([banner total i pdf_path; Extract pdf_path; Get url;
               Write (lit "/tmp/result.md") body] ++ evs0), evs1.
           rewrite <-app_assoc in Hg. cbn [app] in Hg.
           split_and!.
           ++ exact Hk.
           ++ cbn [take]. by econstructor.
           ++ rewrite <-?app_assoc. cbn [app]. exact Hfail.
           ++ rewrite <-?app_assoc. cbn [app]. exact Htr.
        -- injection Hrun as <- <-. cbn [trace].
           exists 0, pdf_path, [], [],
             [Extract pdf_path; Get url; Write (lit "/tmp/result.md") body].
           rewrite Nat.add_0_r. cbn [app take].
           split_and!; [done | constructor | by econstructor |].
           by rewrite <-!app_assoc.
      * injection Hrun as <- <-. cbn [trace].
        exists 0, pdf_path, [], [], [Extract pdf_path; Get url].
        rewrite Nat.add_0_r. cbn [app take].
        split_and!; [done | constructor | by econstructor |].
        by rewrite <-!app_assoc.
    + injection Hrun as <- <-. cbn [trace].
      exists 0, pdf_path, [], [], [Extract pdf_path].
      rewrite Nat.add_0_r. cbn [app take].
      split_and!; [done | constructor | by constructor |].
      by rewrite <-!app_assoc.
Qed.

Lemma ingest_failure_events env h pdf_path e evs :
  ingest_failure env h pdf_path e evs → omap extracted_doc evs = [pdf_path].
Proof. by intros []. Qed.

(** X15: [process_pdfs] stops at the first document that cannot be
    ingested.  When it raises, the documents before some position [k] were
    ingested; the error is that of the extraction of the document at [k], of
    the fetch of its text, or of the decoding of the bytes read back; the
    documents after [k] were never sent to the extractor; and the pipeline
    ends there with the same error, no generation or synthesis call having
    been made. *)
Theorem process_pdfs_first_failure (env : Env) (pdfs : list Path) (w w' : World)
    (e : exn) :
  process_pdfs env pdfs w = (Raise e, w') →
  ∃ k bad docs evs0 evs1,
    pdfs !! k = Some bad
    ∧ ingested env (length pdfs) 0 (trace w) (take k pdfs) docs evs0
    ∧ ingest_failure env (trace w ++ evs0 ++ [banner (length pdfs) k bad]) bad e evs1
    ∧ trace w' = trace w ++ evs0 ++ banner (length pdfs) k bad :: evs1
    ∧ omap extracted_doc (evs0 ++ banner (length pdfs) k bad :: evs1)
      = take (S k) pdfs
    ∧ ∀ (host_name guest_name host_voice guest_voice : str) (duration_minutes : Z)
        (podcast_topic : str) (monologue : bool),
        pdf_to_podcast env pdfs host_name guest_name host_voice guest_voice
          duration_minutes podcast_topic monologue w = (Raise e, w').
Proof.
  intros Hrun. pose proof Hrun as Hloop. unfold process_pdfs in Hloop.
  apply process_pdfs_loop_Raise in Hloop
    as (k & bad & docs & evs0 & evs1 & Hk & Hing & Hfail & Htr).
  cbn [Nat.add] in Hfail, Htr.
  exists k, bad, docs, evs0, evs1.
  split_and!; [exact Hk | exact Hing | exact Hfail | exact Htr | |].
  - destruct (ingested_events _ _ _ _ _ _ _ Hing) as [_ Hdocs].
    rewrite omap_app, Hdocs. cbn [omap list_omap banner extracted_doc].
    rewrite (ingest_failure_events _ _ _ _ _ Hfail).
    by rewrite (take_S_r _ _ _ Hk).
  - intros. unfold pdf_to_podcast, bind. by rewrite Hrun.
Qed.

(** An extractor that rejects "notes.pdf". *)
Definition picky_env : Env :=
  {| pdf_extractor := λ _ doc,
       if decide (path_name doc = lit "notes.pdf") then Raise ModelError
       else Ok (lit "https://files/" ++ path_name doc);
     requests_get := λ _ url, Ok (lit "body of " ++ url);
     decode_text := Ok;
     llm := λ _ _, Ok (lit "{}");
     tts_start := λ h _, Ok (length h);
     tts_wait := λ _ task, Ok (lit "https://audio/" ++ str_of_Z (Z.of_nat task));
     subprocess_run := λ _ fs _, Ok fs;
     json_loads := λ _, Ok demo_reply_json;
     set_order := remove_dups;
     cwd := lit "/src" |}.

Lemma process_pdfs_first_failure_witness :
  ∃ w' k,
    pdf_to_podcast picky_env demo_pdfs (lit "Adam") (lit "Bella")
      (lit "Patient_Man") (lit "Wise_Woman") 5 [] false empty_world
    = (Raise ModelError, w')
    ∧ omap extracted_doc (trace w') = take (S k) demo_pdfs
    ∧ omap llm_prompt (trace w') = [].
Proof.
  destruct (process_pdfs picky_env demo_pdfs empty_world) as [r w'] eqn:Hrun.
  assert (fst (process_pdfs picky_env demo_pdfs empty_world) = Raise ModelError)
    as Hr by (vm_compute; reflexivity).
  assert (omap llm_prompt (trace (snd (process_pdfs picky_env demo_pdfs empty_world)))
          = []) as Hllm by (vm_compute; reflexivity).
  rewrite Hrun in Hr, Hllm. cbn [fst snd] in Hr, Hllm. subst r.
  destruct (process_pdfs_first_failure _ _ _ _ _ Hrun)
    as (k & bad & docs & evs0 & evs1 & _ & _ & _ & Htr & Hdocs & Hpipe).
  exists w', k. cbn [trace empty_world app] in Htr.
  split_and!; [apply Hpipe | by rewrite Htr | exact Hllm].
Defined.

(** ** The files handed to the concatenation utility *)

Lemma lit_inj (s1 s2 : string) : lit s1 = lit s2 → s1 = s2.
Proof.
  unfold lit. intros H.
  assert (Inj (=) (=) N_of_ascii) as Hinj.
  { intros a b Hab. by rewrite <-(ascii_N_embedding a), Hab, ascii_N_embedding. }
  apply (inj (fmap N_of_ascii)) in H.
  by rewrite <-(string_of_list_ascii_of_string s1), H, string_of_list_ascii_of_string.
Qed.

Lemma str_of_Z_inj (z1 z2 : Z) : str_of_Z z1 = str_of_Z z2 → z1 = z2.
Proof.
  unfold str_of_Z. intros H%lit_inj.
  assert (∀ z, Z.to_int z ≠ Decimal.Pos Decimal.Nil
               ∧ Z.to_int z ≠ Decimal.Neg Decimal.Nil) as Hnil.
  { intros [|p|p]; cbn; split; try done; intros [= Hp];
      by apply Unsigned.to_uint_nonnil in Hp. }
  apply (f_equal NilZero.int_of_string) in H.
  rewrite !NilZero.isi in H by apply Hnil. injection H as H.
  by rewrite <-(DecimalZ.of_to z1), H, DecimalZ.of_to.
Qed.

(** Two lines never share a segment file, and no segment file is the
    manifest. *)
Lemma segment_path_inj (i j : nat) : segment_path i = segment_path j → i = j.
Proof.
  unfold segment_path. cbn [concat]. rewrite !app_nil_r.
  intros H%app_inv_head%app_inv_tail%str_of_Z_inj. lia.
Qed.

Lemma segment_path_not_manifest (i : nat) : segment_path i ≠ lit "/tmp/file_list.txt".
Proof.
  unfold segment_path. cbn [concat]. intros H.
  apply (f_equal (λ s : str, s !! 5)) in H. vm_compute in H. discriminate H.
Qed.

Lemma collect_loop_files env i tasks segments w out w' :
  collect_loop env i tasks segments w = (Ok out, w') →
  ∃ evs, trace w' = trace w ++ evs
    ∧ (∀ p c, Write p c ∈ evs →
         ∃ j, j < length tasks ∧ p = segment_path (i + j) ∧ files w' !! p = Some c)
    ∧ (∀ j, j < length tasks → ∃ c, Write (segment_path (i + j)) c ∈ evs)
    ∧ (∀ p, (∀ j, j < length tasks → p ≠ segment_path (i + j)) →
         files w' !! p = files w !! p).
Proof.
  revert i segments w. induction tasks as [|task rest IH]; intros i segments w Hrun.
  - cbn in Hrun. injection Hrun as <- <-. exists []. rewrite app_nil_r.
    split_and!; [done | | | done].
    + intros p c Hin. by apply elem_of_nil in Hin.
    + intros j Hj. cbn in Hj. lia.
  - cbn [collect_loop] in Hrun. run_step.
    destruct (tts_wait env (trace w) task) as [url|] eqn:Hw; [|done].
    destruct (requests_get env _ url) as [audio|] eqn:Hg; [|done].
    apply IH in Hrun as (evs & Htr & Hwritten & Hall & Hframe).
    cbn [trace files] in Htr, Hframe.
    assert (files w' !! segment_path i = Some audio) as Hi.
    { rewrite Hframe; [by rewrite lookup_insert_eq|].
      intros j _ Heq%segment_path_inj. lia. }
    exists ([TtsWait task; Get url; Write (segment_path i) audio] ++ evs).
    split_and!.
    + rewrite Htr. by rewrite <-!app_assoc.
    + intros p c Hin. apply elem_of_app in Hin as [Hin|Hin].
      * exists 0. rewrite Nat.add_0_r. cbn [length].
        repeat (apply elem_of_cons in Hin as [Hin|Hin]; try discriminate Hin).
        -- injection Hin as -> ->. split_and!; [lia | done | done].
        -- by apply elem_of_nil in Hin.
      * destruct (Hwritten p c Hin) as (j & Hj & -> & Hc).
        exists (S j). cbn [length]. split_and!; [lia | f_equal; lia | done].
    + intros [|j] Hj; cbn [length] in Hj.
      * exists audio. rewrite Nat.add_0_r. apply elem_of_app. left.
        do 2 right. left.
      * destruct (Hall j) as [c Hc]; [lia|]. exists c.
        replace (i + S j) with (S i + j) by lia. apply elem_of_app. by right.
    + intros p Hp. rewrite Hframe.
      * rewrite lookup_insert_ne; [done|]. intros Heq. apply (Hp 0); [cbn; lia|].
        by rewrite Nat.add_0_r.
      * intros j Hj. replace (S i + j) with (i + S j) by lia. apply Hp. cbn. lia.
Qed.

Lemma dispatched_no_write env vm h entries tasks evs p c :
  dispatched env vm h entries tasks evs → Write p c ∉ evs.
Proof.
  intros H. induction H as [h | h entry rest voice task tasks evs Hv Ht Hd IH].
  - apply not_elem_of_nil.
  - intros [Hin|Hin]%elem_of_cons; [discriminate Hin | done].
Qed.

(** X16: when [generate_audio] returns, the concatenation utility was run on
    a file system in which every file the stage wrote still holds what was
    written to it: one segment per line, no segment overwritten by a later one
    or by the manifest, and the manifest listing the segments; every other
    file is as it was before the stage.  The files the stage leaves are those
    the utility left. *)
Theorem segments_intact (env : Env) (conversation : Conversation)
    (host_voice guest_voice : str) (monologue : bool) (w w' : World) (path : str) :
  generate_audio env conversation host_voice guest_voice monologue w
  = (Ok path, w') →
  let n := length (lines conversation) in
  let cmd := ffmpeg_cmd (lit "/tmp/file_list.txt") (lit "podcast.mp3") in
  ∃ evs fs,
    trace w' = trace w ++ evs ++ [Run cmd]
    ∧ subprocess_run env (trace w ++ evs) fs cmd = Ok (files w')
    ∧ (∀ p c, Write p c ∈ evs → fs !! p = Some c)
    ∧ (∀ j, j < n → ∃ audio, Write (segment_path j) audio ∈ evs)
    ∧ Write (lit "/tmp/file_list.txt") (manifest_of n) ∈ evs
    ∧ (∀ p, (∀ c, Write p c ∉ evs) → fs !! p = files w !! p).
Proof.
  unfold generate_audio. intros Hrun. run_step.
  destruct (voice_assignment env conversation host_voice guest_voice monologue)
    as [vm|] eqn:Hvm; [|done].
  destruct (dispatch_loop env vm (lines conversation) [] w) as [[tasks|] w1] eqn:Hd;
    [|done].
  apply dispatch_loop_Ok in Hd as (new & starts & -> & Hd & Htr1 & Hf1).
  cbn [app] in Hrun.
  destruct (collect_loop env 0 new [] w1) as [[segments|] w2] eqn:Hc; [|done].
  pose proof Hc as Hc'.
  apply collect_loop_Ok in Hc' as (fetches & -> & _ & Htr2).
  apply collect_loop_files in Hc as (fetches' & Htr2' & Hwritten & Hall & Hframe).
  assert (fetches' = fetches) as -> by (rewrite Htr2 in Htr2'; by apply app_inv_head in Htr2').
  destruct (dispatched_length _ _ _ _ _ _ Hd) as [Hlen _].
  unfold combine_audio_files in Hrun. run_step.
  cbn [app] in Hrun. rewrite manifest_segments, Hlen in Hrun.
  fold (manifest_of (length (lines conversation))) in Hrun.
  set (manifest := manifest_of (length (lines conversation))) in *.
  set (evs := starts ++ fetches
              ++ [ Print (lit "TTS completed, combining audio files");
                   Write (lit "/tmp/file_list.txt") manifest ]).
  assert ((trace w2 ++ [Print (lit "TTS completed, combining audio files")])
          ++ [Write (lit "/tmp/file_list.txt") manifest] = trace w ++ evs) as Hh.
  { unfold evs. rewrite Htr2, Htr1. by rewrite <-!app_assoc. }
  rewrite Hh in Hrun.
  destruct (subprocess_run env (trace w ++ evs) _ _) as [files'|] eqn:Hs; [|done].
  injection Hrun as <- <-. cbn [trace files]. cbn zeta.
  exists evs, (<[lit "/tmp/file_list.txt" := manifest]> (files w2)).
  split_and!.
  - by rewrite app_assoc.
  - exact Hs.
  - intros p c Hin. unfold evs in Hin.
    apply elem_of_app in Hin as [Hin|Hin];
      [by apply (dispatched_no_write _ _ _ _ _ _ _ _ Hd) in Hin|].
    apply elem_of_app in Hin as [Hin|Hin].
    + destruct (Hwritten p c Hin) as (j & _ & -> & Hc).
      rewrite lookup_insert_ne; [done|]. intros Heq.
      by apply (segment_path_not_manifest (0 + j)).
    + apply elem_of_cons in Hin as [Hin|Hin]; [discriminate Hin|].
      apply elem_of_cons in Hin as [Hin|Hin]; [|by apply elem_of_nil in Hin].
      injection Hin as -> ->. by rewrite lookup_insert_eq.
  - intros j Hj. destruct (Hall j) as [c Hc]; [by rewrite Hlen|].
    exists c. unfold evs. apply elem_of_app. right. apply elem_of_app. by left.
  - unfold evs. apply elem_of_app. right. apply elem_of_app. right. right. left.
  - intros p Hp. rewrite lookup_insert_ne.
    + rewrite Hframe, Hf1; [done|]. intros j Hj ->.
      destruct (Hall j Hj) as [c Hc]. apply (Hp c). unfold evs.
      apply elem_of_app. right. apply elem_of_app. by left.
    + intros <-. apply (Hp manifest). unfold evs.
      apply elem_of_app. right. apply elem_of_app. right. right. left.
Qed.

Lemma segments_intact_witness :
  ∃ (w' : World) (evs : list event) (fs : gmap str str) (a0 a2 : str),
    generate_audio (demo_env [] (Raise JSONDecodeError)) demo_dialogue
      (lit "Patient_Man") (lit "Wise_Woman") false empty_world
    = (Ok (lit "podcast.mp3"), w')
    ∧ Write (segment_path 0) a0 ∈ evs ∧ fs !! segment_path 0 = Some a0
    ∧ Write (segment_path 2) a2 ∈ evs ∧ fs !! segment_path 2 = Some a2
    ∧ fs !! lit "/tmp/file_list.txt" = Some (manifest_of 3).
Proof.
  destruct (generate_audio_total (demo_env [] (Raise JSONDecodeError)) demo_dialogue
              (lit "Patient_Man") (lit "Wise_Woman") false empty_world
              [KStr (lit "Adam"); KStr (lit "Bella"); KStr (lit "Adam")])
    as [w' Hrun].
  - apply demo_env_set_order_ok.
  - reflexivity.
  - intros h request. by eexists.
  - intros h task. by eexists.
  - intros h url. by eexists.
  - intros h fs cmd. by eexists.
  - destruct (segments_intact _ _ _ _ _ _ _ _ Hrun)
      as (evs & fs & _ & _ & Hkept & Hall & Hlist & _).
    cbn [demo_dialogue lines length] in Hall, Hlist.
    destruct (Hall 0) as [a0 H0]; [lia|].
    destruct (Hall 2) as [a2 H2]; [lia|].
    exists w', evs, fs, a0, a2.
    split_and!; [exact Hrun | exact H0 | by apply Hkept | exact H2 | by apply Hkept
                | by apply Hkept].
Defined.

(** ** The files the pipeline writes *)

(** The scratch files of the pipeline. *)
Definition scratch_path (p : str) : Prop :=
  p = lit "/tmp/result.md" ∨ p = lit "/tmp/file_list.txt" ∨ ∃ j, p = segment_path j.

(** [confined w w' evs]: going from [w] to [w'] added the events [evs], wrote
    to scratch files only and, unless the concatenation utility was run, left
    every other file as it was. *)
Definition confined (w w' : World) (evs : list event) : Prop :=
  trace w' = trace w ++ evs
  ∧ (∀ p c, Write p c ∈ evs → scratch_path p)
  ∧ (omap run_cmd evs = [] → ∀ p, ¬ scratch_path p → files w' !! p = files w !! p).

Definition confines {A} (m : M A) : Prop :=
  ∀ w r w', m w = (r, w') → ∃ evs, confined w w' evs.

Lemma confined_refl w : confined w w [].
Proof.
  split_and!; [by rewrite app_nil_r | | done].
  intros p c Hin. by apply elem_of_nil in Hin.
Qed.

Lemma confined_trans w w1 w2 evs1 evs2 :
  confined w w1 evs1 → confined w1 w2 evs2 → confined w w2 (evs1 ++ evs2).
Proof.
  intros (Htr1 & Hw1 & Hf1) (Htr2 & Hw2 & Hf2). split_and!.
  - by rewrite Htr2, Htr1, <-app_assoc.
  - intros p c [Hin|Hin]%elem_of_app; eauto.
  - rewrite omap_app. intros [Hr1 Hr2]%app_eq_nil p Hp.
    by rewrite Hf2, Hf1.
Qed.

Lemma confines_ret {A} (a : A) : confines (ret a).
Proof. intros w r w' [= <- <-]. exists []. apply confined_refl. Qed.

Lemma confines_lift {A} (x : res A) : confines (lift x).
Proof.
  intros w r w' Hrun. unfold lift in Hrun. exists [].
  destruct x; injection Hrun as <- <-; apply confined_refl.
Qed.

Lemma confines_bind {A B} (m : M A) (k : A → M B) :
  confines m → (∀ a, confines (k a)) → confines (bind m k).
Proof.
  intros Hm Hk w r w' Hrun. unfold bind in Hrun.
  destruct (m w) as [[a|e] w1] eqn:Hmw.
  - destruct (Hm _ _ _ Hmw) as [evs1 H1]. destruct (Hk a _ _ _ Hrun) as [evs2 H2].
    exists (evs1 ++ evs2). by eapply confined_trans.
  - injection Hrun as <- <-. by eapply Hm.
Qed.

Lemma confines_call {A} (oracle : list event → res A) (ev : event) :
  (∀ p c, ev ≠ Write p c) → run_cmd ev = None → confines (call oracle ev).
Proof.
  intros Hev Hrun w r w' [= <- <-]. exists [ev]. split_and!; [done | | done].
  intros p c Hin. apply list_elem_of_singleton in Hin. by destruct (Hev p c).
Qed.

Lemma confines_print (line : str) : confines (print line).
Proof.
  intros w r w' [= <- <-]. exists [Print line]. split_and!; [done | | done].
  intros p c Hin. apply list_elem_of_singleton in Hin. discriminate Hin.
Qed.

Lemma confines_write_file (path content : str) :
  scratch_path path → confines (write_file path content).
Proof.
  intros Hpath w r w' [= <- <-]. exists [Write path content]. split_and!; [done | |].
  - intros p c Hin. apply list_elem_of_singleton in Hin. by injection Hin as -> ->.
  - intros _ p Hp. cbn [files]. rewrite lookup_insert_ne; [done|]. by intros ->.
Qed.

Lemma confines_read_text env (path : str) : confines (read_text env path).
Proof.
  intros w r w' Hrun. unfold read_text in Hrun. exists [].
  destruct (files w !! path); injection Hrun as <- <-; apply confined_refl.
Qed.

Lemma confines_download env (url path : str) :
  scratch_path path → confines (download env url path).
Proof.
  intros Hpath. apply confines_bind; [by apply confines_call|].
  intros content. by apply confines_write_file.
Qed.

Lemma confines_process_pdfs_loop env total i pdfs results :
  confines (process_pdfs_loop env total i pdfs results).
Proof.
  revert i results. induction pdfs as [|pdf_path rest IH]; intros i results.
  - apply confines_ret.
  - cbn [process_pdfs_loop].
    apply confines_bind; [apply confines_print | intros _].
    apply confines_bind; [by apply confines_call | intros markdown_url].
    apply confines_bind; [apply confines_download; by left | intros _].
    apply confines_bind; [apply confines_read_text | intros markdown_text].
    apply IH.
Qed.

Lemma confines_generate_podcast_content env pdf_metadata host_name guest_name
    duration_minutes podcast_topic monologue :
  confines (generate_podcast_content env pdf_metadata host_name guest_name
              duration_minutes podcast_topic monologue).
Proof.
  unfold generate_podcast_content.
  repeat (apply confines_bind;
          [first [apply confines_print | by apply confines_call] | intros ?]).
  apply confines_lift.
Qed.

Lemma confines_dispatch_loop env vm entries acc :
  confines (dispatch_loop env vm entries acc).
Proof.
  revert acc. induction entries as [|entry rest IH]; intros acc.
  - apply confines_ret.
  - cbn [dispatch_loop].
    apply confines_bind; [apply confines_lift | intros voice].
    apply confines_bind; [by apply confines_call | intros audio_task].
    apply IH.
Qed.

Lemma confines_collect_loop env i tasks segments :
  confines (collect_loop env i tasks segments).
Proof.
  revert i segments. induction tasks as [|task rest IH]; intros i segments.
  - apply confines_ret.
  - cbn [collect_loop].
    apply confines_bind; [by apply confines_call | intros audio_result].
    apply confines_bind; [|intros _; apply IH].
    apply confines_download. right. right. by exists i.
Qed.

Lemma confines_combine_audio_files env audio_files output_path :
  confines (combine_audio_files env audio_files output_path).
Proof.
  unfold combine_audio_files.
  apply confines_bind; [apply confines_write_file; right; by left | intros _].
  intros w r w' Hrun.
  exists [Run (ffmpeg_cmd (lit "/tmp/file_list.txt") output_path)].
  destruct (subprocess_run env _ _ _); injection Hrun as <- <-;
    (split_and!; [done | | done]);
    intros p c Hin; apply list_elem_of_singleton in Hin; discriminate Hin.
Qed.

Lemma confines_generate_audio env conversation host_voice guest_voice monologue :
  confines (generate_audio env conversation host_voice guest_voice monologue).
Proof.
  unfold generate_audio.
  apply confines_bind; [apply confines_lift | intros voice_mapping].
  apply confines_bind; [apply confines_dispatch_loop | intros audio_tasks].
  apply confines_bind; [apply confines_collect_loop | intros all_audio_segments].
  apply confines_bind; [apply confines_print | intros _].
  apply confines_bind; [apply confines_combine_audio_files | intros _].
  apply confines_ret.
Qed.

(** X17: whatever its outcome, a run of the pipeline writes to three kinds
    of files only: the scratch file "/tmp/result.md" of the ingestor, the
    segment files "/tmp/audio-<i>.mp3" and the manifest "/tmp/file_list.txt".
    As long as the concatenation utility has not been run, every other file
    is as it was. *)
Theorem pipeline_writes_confined (env : Env) (pdfs : list Path)
    (host_name guest_name host_voice guest_voice : str) (duration_minutes : Z)
    (podcast_topic : str) (monologue : bool) (w w' : World) (r : res str) :
  pdf_to_podcast env pdfs host_name guest_name host_voice guest_voice
    duration_minutes podcast_topic monologue w = (r, w') →
  ∃ evs,
    trace w' = trace w ++ evs
    ∧ (∀ p c, Write p c ∈ evs →
         p = lit "/tmp/result.md" ∨ p = lit "/tmp/file_list.txt"
         ∨ ∃ j, p = segment_path j)
    ∧ (omap run_cmd evs = [] →
       ∀ p, p ≠ lit "/tmp/result.md" → p ≠ lit "/tmp/file_list.txt" →
            (∀ j, p ≠ segment_path j) →
            files w' !! p = files w !! p).
Proof.
  intros Hrun.
  assert (confines (pdf_to_podcast env pdfs host_name guest_name host_voice
                      guest_voice duration_minutes podcast_topic monologue)) as Hc.
  { unfold pdf_to_podcast, process_pdfs.
    apply confines_bind; [apply confines_process_pdfs_loop | intros pdf_metadata].
    apply confines_bind; [apply confines_generate_podcast_content | intros c].
    apply confines_bind; [apply confines_generate_audio | intros audio_path].
    apply confines_ret. }
  destruct (Hc _ _ _ Hrun) as (evs & Htr & Hw & Hf).
  exists evs. split_and!; [exact Htr | exact Hw |].
  intros Hno p H1 H2 H3. apply Hf; [exact Hno|].
  intros [->|[->|[j ->]]]; [by apply H1 | by apply H2 | by apply (H3 j)].
Qed.

Lemma pipeline_writes_confined_witness :
  ∃ w' : World,
    pdf_to_podcast refusing_env demo_pdfs (lit "Adam") (lit "Bella")
      (lit "Patient_Man") (lit "Wise_Woman") 5 [] false
      {| files := {[ lit "podcast.mp3" := lit "old" ]}; trace := [] |}
    = (Raise JSONDecodeError, w')
    ∧ files w' !! lit "podcast.mp3" = Some (lit "old").
Proof.
  destruct (pdf_to_podcast refusing_env demo_pdfs (lit "Adam") (lit "Bella")
              (lit "Patient_Man") (lit "Wise_Woman") 5 [] false
              {| files := {[ lit "podcast.mp3" := lit "old" ]}; trace := [] |})
    as [r w'] eqn:Hrun.
  assert (fst (pdf_to_podcast refusing_env demo_pdfs (lit "Adam") (lit "Bella")
                 (lit "Patient_Man") (lit "Wise_Woman") 5 [] false
                 {| files := {[ lit "podcast.mp3" := lit "old" ]}; trace := [] |})
          = Raise JSONDecodeError) as Hr by (vm_compute; reflexivity).
  assert (omap run_cmd (trace (snd
            (pdf_to_podcast refusing_env demo_pdfs (lit "Adam") (lit "Bella")
               (lit "Patient_Man") (lit "Wise_Woman") 5 [] false
               {| files := {[ lit "podcast.mp3" := lit "old" ]}; trace := [] |})))
          = []) as Hno by (vm_compute; reflexivity).
  rewrite Hrun in Hr, Hno. cbn [fst snd] in Hr, Hno. subst r.
  destruct (pipeline_writes_confined _ _ _ _ _ _ _ _ _ _ _ _ Hrun)
    as (evs & Htr & _ & Hf).
  cbn [trace app] in Htr. rewrite Htr in Hno.
  exists w'. split; [reflexivity|].
  rewrite Hf; [cbn [files]; apply lookup_singleton_eq | exact Hno | | |].
  - vm_compute. discriminate.
  - vm_compute. discriminate.
  - intros j Heq. unfold segment_path in Heq. cbn [concat] in Heq.
    apply (f_equal (λ s : str, s !! 0)) in Heq. vm_compute in Heq. discriminate Heq.
Defined.
